(** * The service worker of the Meme Coin Analyzer (sw.js)

    A shallow embedding of the worker's event handlers and of the part of
    the browser platform they call (Cache Storage, fetch, localStorage,
    console), followed by the properties of the caching, fallback, replay
    and eviction behaviour.

    Conventions of the embedding.
    - An [async] function is a [Task]: a state transformer over a [World]
      that either returns a value or throws.  Every handler runs to its end
      without interleaving with another handler.
    - The network and the faults of the storage layer are not decided by the
      worker; they are read from an environment [Env], as is the clock.
    - A request is identified in a cache by its URL (only GET requests are
      ever stored by the worker).
    - [localStorage] is the persistent store the worker uses it as; a list
      kept there as JSON text is represented by the list itself. *)

From Stdlib Require Import String Ascii List ZArith Lia Bool DecimalString.
Import ListNotations.

Local Open Scope string_scope.
Local Open Scope Z_scope.

(* ================================================================== *)
(** ** Strings as JavaScript uses them *)

Module Str.

(** [hay.includes(needle)] *)
Fixpoint includes (needle hay : string) : bool :=
  String.prefix needle hay ||
  match hay with
  | EmptyString => false
  | String _ rest => includes needle rest
  end.

(** [hay.endsWith(suffix)]; only the reading of the specification uses it *)
Fixpoint endsWith (suffix hay : string) : bool :=
  String.eqb suffix hay ||
  match hay with
  | EmptyString => false
  | String _ rest => endsWith suffix rest
  end.

Definition lower_ascii (c : ascii) : ascii :=
  let n := nat_of_ascii c in
  if (Nat.leb 65 n && Nat.leb n 90)%bool then ascii_of_nat (n + 32) else c.

(** ASCII lower-casing, as the platform applies to header names *)
Fixpoint lower (s : string) : string :=
  match s with
  | EmptyString => EmptyString
  | String c rest => String (lower_ascii c) (lower rest)
  end.

Fixpoint join (sep : string) (l : list string) : string :=
  match l with
  | [] => ""
  | [x] => x
  | x :: rest => x ++ sep ++ join sep rest
  end.

(** decimal rendering of an integer *)
Definition of_Z (n : Z) : string := NilZero.string_of_int (Z.to_int n).

End Str.

(* ================================================================== *)
(** ** JavaScript values *)

Module JS.

(** The values that cross the worker's boundaries: message payloads
    (structured clones) and JSON records.  Numbers are the integral ones. *)
#[warnings="-register-all"] Inductive jsval : Type :=
| VUndefined
| VNull
| VBool (b : bool)
| VNum (n : Z)
| VStr (s : string)
| VObj (fields : list (string * jsval)).

Inductive JsError : Type :=
| TypeError
| NetworkError            (* fetch rejected *)
| HttpError (status : Z)  (* [new Error(`HTTP ${status}`)] *)
| StorageError.           (* a cache or localStorage operation rejected *)

Fixpoint assoc {A : Type} (k : string) (l : list (string * A)) : option A :=
  match l with
  | [] => None
  | (k', v) :: rest => if String.eqb k k' then Some v else assoc k rest
  end.

(** [(k, v)] replaces the first binding of [k], or is appended *)
Fixpoint assoc_set {A : Type} (k : string) (v : A) (l : list (string * A))
  : list (string * A) :=
  match l with
  | [] => [(k, v)]
  | (k', v') :: rest =>
      if String.eqb k k' then (k, v) :: rest else (k', v') :: assoc_set k v rest
  end.

(** [v.k]: reading a property throws on [undefined] and [null], and yields
    [undefined] where the property is absent *)
Definition prop (k : string) (v : jsval) : option jsval :=
  match v with
  | VUndefined | VNull => None
  | VObj fields =>
      match assoc k fields with Some x => Some x | None => Some VUndefined end
  | _ => Some VUndefined
  end.

(** [v.k = x]: throws on [undefined] and [null], is ignored on the other
    primitives (the worker is not in strict mode) *)
Definition set_prop (k : string) (x : jsval) (v : jsval) : option jsval :=
  match v with
  | VUndefined | VNull => None
  | VObj fields => Some (VObj (assoc_set k x fields))
  | _ => Some v
  end.

Definition ToBoolean (v : jsval) : bool :=
  match v with
  | VUndefined | VNull => false
  | VBool b => b
  | VNum n => negb (n =? 0)
  | VStr s => negb (String.eqb s "")
  | VObj _ => true
  end.

(** the string a template literal interpolates *)
Definition ToString (v : jsval) : string :=
  match v with
  | VUndefined => "undefined"
  | VNull => "null"
  | VBool true => "true"
  | VBool false => "false"
  | VNum n => Str.of_Z n
  | VStr s => s
  | VObj _ => "[object Object]"
  end.

(** What [JSON.parse(JSON.stringify(v))] gives back for an array element
    or a property value: [undefined] becomes [null] in an array, and a
    property holding [undefined] is dropped. *)
Fixpoint json_fields (norm : jsval -> jsval) (l : list (string * jsval))
  : list (string * jsval) :=
  match l with
  | [] => []
  | (_, VUndefined) :: rest => json_fields norm rest
  | (k, v) :: rest => (k, norm v) :: json_fields norm rest
  end.

Fixpoint json_roundtrip (v : jsval) : jsval :=
  match v with
  | VUndefined => VNull
  | VObj fields => VObj (json_fields json_roundtrip fields)
  | _ => v
  end.

(** *** [parseInt] with no radix argument *)

Definition is_space (c : ascii) : bool :=
  let n := nat_of_ascii c in
  ((Nat.leb 9 n && Nat.leb n 13) || Nat.eqb n 32 || Nat.eqb n 160)%bool.

Fixpoint skip_space (s : string) : string :=
  match s with
  | String c rest => if is_space c then skip_space rest else s
  | EmptyString => s
  end.

Definition digit_of (c : ascii) : option Z :=
  let n := nat_of_ascii c in
  if (Nat.leb 48 n && Nat.leb n 57)%bool then Some (Z.of_nat (n - 48))
  else if (Nat.leb 97 n && Nat.leb n 102)%bool then Some (Z.of_nat (n - 87))
  else if (Nat.leb 65 n && Nat.leb n 70)%bool then Some (Z.of_nat (n - 55))
  else None.

(** the longest run of radix-[r] digits at the start of [s], read as a
    number continuing [acc]; [None] when there is no digit at all *)
Fixpoint digits (r : Z) (s : string) (acc : option Z) : option Z :=
  match s with
  | EmptyString => acc
  | String c rest =>
      match digit_of c with
      | Some d =>
          if d <? r
          then digits r rest (Some (match acc with Some a => a * r + d | None => d end))
          else acc
      | None => acc
      end
  end.

Definition strip_hex_prefix (s : string) : option string :=
  match s with
  | String "0" (String "x" rest) => Some rest
  | String "0" (String "X" rest) => Some rest
  | _ => None
  end.

Definition parse_unsigned (s : string) : option Z :=
  match strip_hex_prefix s with
  | Some rest => digits 16 rest None
  | None => digits 10 s None
  end.

(** [parseInt(s)]; [None] is [NaN].  The result is the exact integer:
    the worker only compares it with [Date.now() - 3600000], which is far
    below 2^53, and rounding to a double does not change such a
    comparison. *)
Definition parseInt (s : string) : option Z :=
  match skip_space s with
  | String "-" rest => option_map Z.opp (parse_unsigned rest)
  | String "+" rest => parse_unsigned rest
  | s' => parse_unsigned s'
  end.

End JS.

(* ================================================================== *)
(** ** Requests, responses and the Cache Storage of the platform *)

Module Web.
Import JS.

(** A header list; the platform keeps names in lower case and looks them
    up without regard to case. *)
Definition Headers : Type := list (string * string).

Definition same_name (a b : string) : bool :=
  String.eqb (Str.lower a) (Str.lower b).

(** [headers.get(name)]: the values under [name], joined; [None] is [null] *)
Definition headers_get (name : string) (h : Headers) : option string :=
  match filter (fun kv => same_name name (fst kv)) h with
  | [] => None
  | found => Some (Str.join ", " (map snd found))
  end.

Definition headers_has (name : string) (h : Headers) : bool :=
  existsb (fun kv => same_name name (fst kv)) h.

(** [headers.set(name, value)] *)
Definition headers_set (name value : string) (h : Headers) : Headers :=
  if headers_has name h
  then
    (fix go (l : Headers) (placed : bool) : Headers :=
       match l with
       | [] => []
       | (k, v) :: rest =>
           if same_name name k
           then if placed then go rest true
                else (Str.lower name, value) :: go rest true
           else (k, v) :: go rest placed
       end) h false
  else (h ++ [(Str.lower name, value)])%list.

(** A body is a text, or the text [JSON.stringify v] kept as the value
    [v] it renders. *)
Inductive Body : Type :=
| BodyText (s : string)
| BodyJSON (v : jsval).

Record Response : Type := mkResponse {
  status : Z;
  statusText : string;
  headers : Headers;
  body : Body
}.

(** [response.ok] *)
Definition ok (r : Response) : bool := (200 <=? status r) && (status r <=? 299).

(** [response.clone()]: responses are values here, a clone is the response *)
Definition clone (r : Response) : Response := r.

Record Request : Type := mkRequest {
  url : string;
  method : string;
  req_headers : Headers
}.

(** One call of [fetch], as the network sees it *)
Record NetCall : Type := mkNetCall {
  nc_method : string;
  nc_url : string;
  nc_body : option jsval   (* the value whose JSON text is the body *)
}.

Inductive FetchResult : Type :=
| NetFail                    (* the promise rejects *)
| NetResp (r : Response).    (* the promise resolves, whatever the status *)

(** *** One cache: request URL to stored response, in insertion order *)

Definition Cache : Type := list (string * Response).

Definition cache_requests (c : Cache) : list string := map fst c.

Definition cache_lookup (k : string) (c : Cache) : option Response := assoc k c.

Definition cache_remove (k : string) (c : Cache) : Cache :=
  filter (fun kv => negb (String.eqb k (fst kv))) c.

(** [cache.put]: entries under the same request are replaced by the new one *)
Definition cache_store (k : string) (r : Response) (c : Cache) : Cache :=
  (cache_remove k c ++ [(k, r)])%list.

(** *** The cache storage: cache name to cache, in creation order *)

Definition CacheStorage : Type := list (string * Cache).

Definition storage_get (name : string) (cs : CacheStorage) : Cache :=
  match assoc name cs with Some c => c | None => [] end.

(** [caches.open(name)] creates the cache when it does not exist *)
Definition storage_open (name : string) (cs : CacheStorage) : CacheStorage :=
  match assoc name cs with
  | Some _ => cs
  | None => (cs ++ [(name, [])])%list
  end.

Fixpoint storage_update (name : string) (f : Cache -> Cache) (cs : CacheStorage)
  : CacheStorage :=
  match cs with
  | [] => []
  | (n, c) :: rest =>
      if String.eqb name n then (n, f c) :: rest
      else (n, c) :: storage_update name f rest
  end.

(** [caches.match(request)]: the first hit, caches taken in creation order *)
Fixpoint storage_match (k : string) (cs : CacheStorage) : option Response :=
  match cs with
  | [] => None
  | (_, c) :: rest =>
      match cache_lookup k c with
      | Some r => Some r
      | None => storage_match k rest
      end
  end.

Definition storage_keys (cs : CacheStorage) : list string := map fst cs.

(** [caches.delete(name)] *)
Definition storage_delete (name : string) (cs : CacheStorage) : CacheStorage :=
  filter (fun nc => negb (String.eqb name (fst nc))) cs.

End Web.

(* ================================================================== *)
(** ** The worker *)

Module SW.
Import JS Web.

Definition CACHE_NAME : string := "meme-coin-analyzer-v1.0.0".
Definition DATA_CACHE_NAME : string := "meme-coin-analyzer-data-v1.0.0".

Definition STATIC_CACHE_URLS : list string :=
  [ "/"; "/index.html"; "/manifest.json";
    "/assets/icons/icon-192x192.png"; "/assets/icons/icon-512x512.png" ].

(** Each pattern is [/^text/] with every special character escaped: it
    tests whether the URL starts with the text. *)
Definition API_CACHE_PATTERNS : list string :=
  [ "https://api.dexscreener.com"; "https://api.etherscan.io";
    "https://api.coingecko.com"; "https://api.twitter.com" ].

Definition pattern_test (pattern u : string) : bool := String.prefix pattern u.

(** *** What the worker does not decide *)

Inductive StorageOp : Type :=
| OpOpen (name : string)
| OpCachesKeys
| OpCachesMatch (key : string)
| OpKeys (cache : string)
| OpMatch (cache key : string)
| OpPut (cache key : string)
| OpDelete (cache key : string)
| OpAddAll (cache : string)
| OpGetItem (key : string)
| OpSetItem (key : string).

Record Env : Type := mkEnv {
  now : Z;                          (* [Date.now()], in milliseconds *)
  net : NetCall -> FetchResult;     (* what the network answers *)
  faulty : StorageOp -> bool        (* the storage operations that reject *)
}.

(** *** What the worker changes *)

Inductive Level : Type := Log | Error.

Record World : Type := mkWorld {
  caches : CacheStorage;
  localStorage : list (string * list jsval);  (* key to the array its JSON text holds *)
  console : list (Level * string);            (* first argument of each call *)
  network : list NetCall;                     (* the calls of [fetch], in order *)
  skipWaiting_calls : nat;
  sync_tags : list string;                    (* tags registered for background sync *)
  port_messages : list (string * jsval);      (* replies posted, by port *)
  unhandled : list JsError                    (* rejections nobody handles *)
}.

Definition with_caches (f : CacheStorage -> CacheStorage) (w : World) : World :=
  mkWorld (f (caches w)) (localStorage w) (console w) (network w)
          (skipWaiting_calls w) (sync_tags w) (port_messages w) (unhandled w).

Definition with_localStorage (f : list (string * list jsval) -> list (string * list jsval))
           (w : World) : World :=
  mkWorld (caches w) (f (localStorage w)) (console w) (network w)
          (skipWaiting_calls w) (sync_tags w) (port_messages w) (unhandled w).

Definition with_console (f : list (Level * string) -> list (Level * string))
           (w : World) : World :=
  mkWorld (caches w) (localStorage w) (f (console w)) (network w)
          (skipWaiting_calls w) (sync_tags w) (port_messages w) (unhandled w).

Definition with_network (f : list NetCall -> list NetCall) (w : World) : World :=
  mkWorld (caches w) (localStorage w) (console w) (f (network w))
          (skipWaiting_calls w) (sync_tags w) (port_messages w) (unhandled w).

Definition with_skipWaiting (f : nat -> nat) (w : World) : World :=
  mkWorld (caches w) (localStorage w) (console w) (network w)
          (f (skipWaiting_calls w)) (sync_tags w) (port_messages w) (unhandled w).

Definition with_sync_tags (f : list string -> list string) (w : World) : World :=
  mkWorld (caches w) (localStorage w) (console w) (network w)
          (skipWaiting_calls w) (f (sync_tags w)) (port_messages w) (unhandled w).

Definition with_port_messages (f : list (string * jsval) -> list (string * jsval))
           (w : World) : World :=
  mkWorld (caches w) (localStorage w) (console w) (network w)
          (skipWaiting_calls w) (sync_tags w) (f (port_messages w)) (unhandled w).

Definition with_unhandled (f : list JsError -> list JsError) (w : World) : World :=
  mkWorld (caches w) (localStorage w) (console w) (network w)
          (skipWaiting_calls w) (sync_tags w) (port_messages w) (f (unhandled w)).

Definition empty_world : World := mkWorld [] [] [] [] 0%nat [] [] [].

(** *** Tasks: state and exceptions *)

Inductive Outcome (A : Type) : Type :=
| Returned (a : A)
| Thrown (e : JsError).
Arguments Returned {A} a.
Arguments Thrown {A} e.

Definition Task (A : Type) : Type := World -> Outcome A * World.

Definition ret {A : Type} (a : A) : Task A := fun w => (Returned a, w).

Definition throw {A : Type} (e : JsError) : Task A := fun w => (Thrown e, w).

Definition bind {A B : Type} (m : Task A) (k : A -> Task B) : Task B :=
  fun w =>
    match m w with
    | (Returned a, w') => k a w'
    | (Thrown e, w') => (Thrown e, w')
    end.

(** [try { m } catch (e) { h e }]: the effects of [m] up to the throw stay *)
Definition try_catch {A : Type} (m : Task A) (h : JsError -> Task A) : Task A :=
  fun w =>
    match m w with
    | (Returned a, w') => (Returned a, w')
    | (Thrown e, w') => h e w'
    end.

(** a promise that nobody awaits: its rejection does not reach the caller *)
Definition floating {A : Type} (m : Task A) : Task unit :=
  fun w =>
    match m w with
    | (Returned _, w') => (Returned tt, w')
    | (Thrown e, w') => (Returned tt, with_unhandled (fun l => (l ++ [e])%list) w')
    end.

Declare Scope task_scope.
Delimit Scope task_scope with task.
Notation "x <- m ;; k" := (bind m (fun x => k))
  (at level 61, m at next level, right associativity) : task_scope.
Notation "m ;; k" := (bind m (fun _ => k))
  (at level 61, right associativity) : task_scope.
Local Open Scope task_scope.

(** [for (const x of xs) { body x }] *)
Fixpoint for_of {A : Type} (xs : list A) (body : A -> Task unit) : Task unit :=
  match xs with
  | [] => ret tt
  | x :: rest => body x ;; for_of rest body
  end.

(** a value that must not be [undefined] or [null] where it is used *)
Definition defined {A : Type} (o : option A) : Task A :=
  match o with
  | Some a => ret a
  | None => throw TypeError
  end.

Section Handlers.

Variable env : Env.

(** *** The platform calls *)

Definition console_log (msg : string) : Task unit :=
  fun w => (Returned tt, with_console (fun l => (l ++ [(Log, msg)])%list) w).

Definition console_error (msg : string) : Task unit :=
  fun w => (Returned tt, with_console (fun l => (l ++ [(Error, msg)])%list) w).

(** a storage operation rejects, changing nothing, when the environment
    says so (quota, a refused response, a closed store) *)
Definition storage_op {A : Type} (op : StorageOp) (m : Task A) : Task A :=
  if faulty env op then throw StorageError else m.

Definition fetch (c : NetCall) : Task Response :=
  fun w =>
    let w' := with_network (fun l => (l ++ [c])%list) w in
    match net env c with
    | NetFail => (Thrown NetworkError, w')
    | NetResp r => (Returned r, w')
    end.

Definition get (u : string) : NetCall := mkNetCall "GET" u None.

(** [fetch(request)] *)
Definition fetch_request (request : Request) : Task Response :=
  fetch (mkNetCall (method request) (url request) None).

(** [caches.open(name)]; the result names the cache *)
Definition caches_open (name : string) : Task string :=
  storage_op (OpOpen name)
    (fun w => (Returned name, with_caches (storage_open name) w)).

Definition caches_keys : Task (list string) :=
  storage_op OpCachesKeys (fun w => (Returned (storage_keys (caches w)), w)).

Definition caches_match (key : string) : Task (option Response) :=
  storage_op (OpCachesMatch key)
    (fun w => (Returned (storage_match key (caches w)), w)).

Definition cache_keys (cache : string) : Task (list string) :=
  storage_op (OpKeys cache)
    (fun w => (Returned (cache_requests (storage_get cache (caches w))), w)).

Definition cache_match (cache key : string) : Task (option Response) :=
  storage_op (OpMatch cache key)
    (fun w => (Returned (cache_lookup key (storage_get cache (caches w))), w)).

Definition cache_put (cache key : string) (r : Response) : Task unit :=
  storage_op (OpPut cache key)
    (fun w => (Returned tt, with_caches (storage_update cache (cache_store key r)) w)).

Definition cache_delete (cache key : string) : Task bool :=
  storage_op (OpDelete cache key)
    (fun w =>
       (Returned (match cache_lookup key (storage_get cache (caches w)) with
                  | Some _ => true
                  | None => false
                  end),
        with_caches (storage_update cache (cache_remove key)) w)).

(** [cache.addAll(urls)]: every URL is fetched; the responses are stored
    only when every one of them arrived and is ok, otherwise the call
    rejects and stores nothing *)
Fixpoint fetch_all (urls : list string) : option (list (string * Response)) :=
  match urls with
  | [] => Some []
  | u :: rest =>
      match net env (get u) with
      | NetFail => None
      | NetResp r =>
          if ok r then option_map (cons (u, r)) (fetch_all rest) else None
      end
  end.

Definition store_all (entries : list (string * Response)) (c : Cache) : Cache :=
  fold_left (fun acc e => cache_store (fst e) (snd e) acc) entries c.

Definition cache_addAll (cache : string) (urls : list string) : Task unit :=
  storage_op (OpAddAll cache)
    (fun w =>
       let w' := with_network (fun l => (l ++ map get urls)%list) w in
       match fetch_all urls with
       | Some entries =>
           (Returned tt, with_caches (storage_update cache (store_all entries)) w')
       | None => (Thrown TypeError, w')
       end).

(** [JSON.parse(localStorage.getItem(key) || '[]')] *)
Definition localStorage_getItem (key : string) : Task (list jsval) :=
  storage_op (OpGetItem key)
    (fun w =>
       (Returned (match assoc key (localStorage w) with
                  | Some l => l
                  | None => []
                  end), w)).

(** [localStorage.setItem(key, JSON.stringify(items))] *)
Definition localStorage_setItem (key : string) (items : list jsval) : Task unit :=
  storage_op (OpSetItem key)
    (fun w =>
       (Returned tt,
        with_localStorage (assoc_set key (map json_roundtrip items)) w)).

(** [self.skipWaiting()] *)
Definition skipWaiting : Task unit :=
  fun w => (Returned tt, with_skipWaiting S w).

(** [self.registration.sync.register(tag)] *)
Definition sync_register (tag : string) : Task unit :=
  fun w => (Returned tt, with_sync_tags (fun l => (l ++ [tag])%list) w).

(** [port.postMessage(info)] *)
Definition postMessage (port : string) (info : jsval) : Task unit :=
  fun w => (Returned tt, with_port_messages (fun l => (l ++ [(port, info)])%list) w).

(** *** Install *)

(** the promise the install listener hands to [event.waitUntil] *)
Definition install_listener : Task unit :=
  console_log "[SW] Installing service worker..." ;;
  try_catch
    (cache <- caches_open CACHE_NAME ;;
     console_log "[SW] Caching static assets" ;;
     cache_addAll cache STATIC_CACHE_URLS ;;
     console_log "[SW] Static assets cached successfully" ;;
     skipWaiting)
    (fun _ => console_error "[SW] Failed to cache static assets:").

(** *** Fetch *)

Definition isAPIRequest (u : string) : bool :=
  existsb (fun pattern => pattern_test pattern u) API_CACHE_PATTERNS.

Definition isStaticAsset (u : string) : bool :=
  Str.includes "/assets/" u ||
  Str.includes "/icons/" u ||
  Str.includes ".css" u ||
  Str.includes ".js" u ||
  Str.includes ".png" u ||
  Str.includes ".jpg" u ||
  Str.includes ".svg" u.

Definition addOfflineHeaders (response : Response) : Response :=
  let headers :=
    headers_set "X-Offline-Mode" "true"
      (headers_set "X-Cache-Status" "HIT"
         (headers_set "X-Served-By" "ServiceWorker" (headers response))) in
  mkResponse (status response) (statusText response) headers (body response).

Definition createOfflineFallback (request : Request) : Response :=
  let fallbackData :=
    VObj [ ("error", VStr "You are offline. This is cached or demo data.");
           ("offline", VBool true);
           ("timestamp", VNum (now env));
           ("url", VStr (url request)) ] in
  mkResponse 200 ""
    [ ("content-type", "application/json"); ("x-offline-mode", "true") ]
    (BodyJSON fallbackData).

Definition handleAPIRequest (request : Request) : Task Response :=
  try_catch
    (networkResponse <- fetch_request request ;;
     if ok networkResponse
     then
       cache <- caches_open DATA_CACHE_NAME ;;
       cache_put cache (url request) (clone networkResponse) ;;
       ret networkResponse
     else throw (HttpError (status networkResponse)))
    (fun _ =>
       console_log "[SW] Network request failed, trying cache:" ;;
       cachedResponse <- caches_match (url request) ;;
       match cachedResponse with
       | Some cached => ret (addOfflineHeaders cached)
       | None => ret (createOfflineFallback request)
       end).

(** [new Response(text, { status: 404 })] *)
Definition not_found (text : string) : Response :=
  mkResponse 404 "" [ ("content-type", "text/plain;charset=UTF-8") ] (BodyText text).

Definition handleStaticRequest (request : Request) : Task Response :=
  try_catch
    (cachedResponse <- caches_match (url request) ;;
     match cachedResponse with
     | Some cached => ret cached
     | None =>
         networkResponse <- fetch_request request ;;
         (if ok networkResponse
          then
            cache <- caches_open CACHE_NAME ;;
            cache_put cache (url request) (clone networkResponse)
          else ret tt) ;;
         ret networkResponse
     end)
    (fun _ =>
       console_log "[SW] Static asset request failed:" ;;
       ret (not_found "Asset not available offline")).

(** [request.headers.get('accept')?.includes('text/html')] *)
Definition accepts_html (request : Request) : bool :=
  match headers_get "accept" (req_headers request) with
  | Some a => Str.includes "text/html" a
  | None => false
  end.

(** the result is [None] where the handler resolves with [undefined] *)
Definition handleDefaultRequest (request : Request) : Task (option Response) :=
  try_catch
    (cachedResponse <-
       (if accepts_html request then caches_match (url request) else ret None) ;;
     match cachedResponse with
     | Some cached => ret (Some cached)
     | None =>
         networkResponse <- fetch_request request ;;
         (if ok networkResponse
          then
            cache <- caches_open CACHE_NAME ;;
            cache_put cache (url request) (clone networkResponse)
          else ret tt) ;;
         ret (Some networkResponse)
     end)
    (fun _ =>
       cachedResponse <- caches_match (url request) ;;
       match cachedResponse with
       | Some cached => ret (Some cached)
       | None =>
           if accepts_html request
           then caches_match "/index.html"
           else ret (Some (not_found "Not available offline"))
       end).

Inductive Strategy : Type := Api | Static | Default.

(** the branch the fetch listener takes for a URL *)
Definition classify (u : string) : Strategy :=
  if isAPIRequest u then Api
  else if isStaticAsset u then Static
  else Default.

(** the fetch listener: [None] where it returns without [respondWith]
    and the request goes to the network untouched *)
Definition fetch_listener (request : Request) : option (Task (option Response)) :=
  if negb (String.eqb (method request) "GET") then None
  else if isAPIRequest (url request)
  then Some (r <- handleAPIRequest request ;; ret (Some r))
  else if isStaticAsset (url request)
  then Some (r <- handleStaticRequest request ;; ret (Some r))
  else Some (handleDefaultRequest request).

(** *** Background sync *)

Definition post (endpoint : string) (record : jsval) : NetCall :=
  mkNetCall "POST" endpoint (Some record).

Definition syncTokenOutcomes : Task unit :=
  try_catch
    (console_log "[SW] Syncing token outcomes..." ;;
     pendingOutcomes <- localStorage_getItem "pendingOutcomes" ;;
     for_of pendingOutcomes (fun outcome =>
       try_catch
         (fetch (post "/api/sync/outcomes" outcome) ;;
          defined (prop "contractAddress" outcome) ;;
          console_log "[SW] Outcome synced:")
         (fun _ => console_error "[SW] Failed to sync outcome:")) ;;
     localStorage_setItem "pendingOutcomes" [])
    (fun _ => console_error "[SW] Background sync failed:").

(** [!item.synced] for every item of the history, as [filter] evaluates
    it; the positions kept are those of the unsynced items *)
Fixpoint unsynced_positions (i : nat) (items : list jsval) : Task (list nat) :=
  match items with
  | [] => ret []
  | item :: rest =>
      synced <- defined (prop "synced" item) ;;
      later <- unsynced_positions (S i) rest ;;
      ret (if ToBoolean synced then later else i :: later)
  end.

Fixpoint update_nth {A : Type} (i : nat) (f : A -> A) (l : list A) : list A :=
  match l, i with
  | [], _ => []
  | x :: rest, O => f x :: rest
  | x :: rest, S j => x :: update_nth j f rest
  end.

Definition mark_synced (item : jsval) : jsval :=
  match set_prop "synced" (VBool true) item with
  | Some item' => item'
  | None => item
  end.

(** The loop over [unsynced].  The objects of [unsynced] are the objects
    of [analysisHistory]: [analysis.synced = true] marks the item at its
    position in the history, which the loop threads along. *)
Fixpoint sync_unsynced (positions : list nat) (history : list jsval)
  : Task (list jsval) :=
  match positions with
  | [] => ret history
  | i :: rest =>
      history' <-
        try_catch
          (fetch (post "/api/sync/analysis" (nth i history VUndefined)) ;;
           ret (update_nth i mark_synced history))
          (fun _ => console_error "[SW] Failed to sync analysis:" ;; ret history) ;;
      sync_unsynced rest history'
  end.

Definition syncAnalysisData : Task unit :=
  try_catch
    (console_log "[SW] Syncing analysis data..." ;;
     analysisHistory <- localStorage_getItem "memeAnalysisHistory" ;;
     unsynced <- unsynced_positions 0 analysisHistory ;;
     analysisHistory' <- sync_unsynced unsynced analysisHistory ;;
     localStorage_setItem "memeAnalysisHistory" analysisHistory')
    (fun _ => console_error "[SW] Analysis sync failed:").

(** the sync listener; each matching tag's task is handed to [waitUntil] *)
Definition sync_listener (tag : string) : Task unit :=
  console_log "[SW] Background sync triggered:" ;;
  (if String.eqb tag "token-outcome-sync" then syncTokenOutcomes else ret tt) ;;
  (if String.eqb tag "analysis-data-sync" then syncAnalysisData else ret tt).

(** *** Messages *)

Definition cacheAnalysisData (analysisData : jsval) : Task unit :=
  try_catch
    (cache <- caches_open DATA_CACHE_NAME ;;
     let response :=
       mkResponse 200 "" [ ("content-type", "application/json") ]
                  (BodyJSON analysisData) in
     address <- defined (prop "contractAddress" analysisData) ;;
     cache_put cache ("/analysis/" ++ ToString address) response ;;
     console_log "[SW] Analysis data cached:")
    (fun _ => console_error "[SW] Failed to cache analysis:").

Definition queueOutcomeSync (outcomeData : jsval) : Task unit :=
  try_catch
    (pending <- localStorage_getItem "pendingOutcomes" ;;
     localStorage_setItem "pendingOutcomes" (pending ++ [outcomeData])%list ;;
     floating (sync_register "token-outcome-sync") ;;
     defined (prop "contractAddress" outcomeData) ;;
     console_log "[SW] Outcome queued for sync:")
    (fun _ => console_error "[SW] Failed to queue outcome:").

Fixpoint cache_sizes (cacheNames : list string) (info : list (string * jsval))
  : Task (list (string * jsval)) :=
  match cacheNames with
  | [] => ret info
  | cacheName :: rest =>
      cache <- caches_open cacheName ;;
      keys <- cache_keys cache ;;
      cache_sizes rest (assoc_set cacheName (VNum (Z.of_nat (length keys))) info)
  end.

Definition getCacheInfo : Task jsval :=
  cacheNames <- caches_keys ;;
  let info :=
    [ ("caches", VNum (Z.of_nat (length cacheNames)));
      ("version", VStr CACHE_NAME);
      ("timestamp", VNum (now env)) ] in
  info' <- cache_sizes cacheNames info ;;
  ret (VObj info').

Definition is_action (action : jsval) (name : string) : bool :=
  match action with
  | VStr s => String.eqb s name
  | _ => false
  end.

(** the message listener, on [event.data] and the ports of the event;
    destructuring [event.data] throws when it is [undefined] or [null] *)
Definition message_listener (event_data : jsval) (ports : list string) : Task unit :=
  action <- defined (prop "action" event_data) ;;
  data <- defined (prop "data" event_data) ;;
  if is_action action "SKIP_WAITING" then floating skipWaiting
  else if is_action action "CACHE_ANALYSIS" then floating (cacheAnalysisData data)
  else if is_action action "QUEUE_OUTCOME" then queueOutcomeSync data
  else if is_action action "GET_CACHE_INFO" then
    floating (info <- getCacheInfo ;;
              port <- defined (nth_error ports 0) ;;
              postMessage port info)
  else console_log "[SW] Unknown message action:".

(** *** Periodic cleanup *)

(** [timestamp && parseInt(timestamp) < cutoff] on the header of a
    stored response *)
Definition expired (cutoff : Z) (response : Response) : bool :=
  match headers_get "X-Cache-Timestamp" (headers response) with
  | None => false
  | Some timestamp =>
      negb (String.eqb timestamp "") &&
      match parseInt timestamp with
      | Some t => t <? cutoff
      | None => false
      end
  end.

(** the callback of [setInterval] *)
Definition cleanup : Task unit :=
  try_catch
    (cache <- caches_open DATA_CACHE_NAME ;;
     requests <- cache_keys cache ;;
     let cutoff := now env - 60 * 60 * 1000 in
     for_of requests (fun request =>
       found <- cache_match cache request ;;
       response <- defined found ;;
       if expired cutoff response
       then cache_delete cache request ;; ret tt
       else ret tt) ;;
     console_log "[SW] Cache cleanup completed")
    (fun _ => console_error "[SW] Cache cleanup failed:").

(** *** Lifecycle *)

Inductive WorkerState : Type :=
| Installing | Installed | Activating | Activated | Redundant.

(** The platform's rule for the install event: the worker is installed
    when the promise given to [waitUntil] fulfils and is discarded when
    it rejects. *)
Definition install (w : World) : WorkerState * World :=
  match install_listener w with
  | (Returned _, w') => (Installed, w')
  | (Thrown _, w') => (Redundant, w')
  end.

(** *** Activate *)

(** [caches.delete(name)]; [rejects] tells the deletions that the store
    refuses *)
Definition caches_delete (rejects : string -> bool) (name : string) : Task bool :=
  if rejects name then throw StorageError
  else
    fun w =>
      (Returned (existsb (String.eqb name) (storage_keys (caches w))),
       with_caches (storage_delete name) w).

(** [Promise.all] over tasks that are all started: each runs to its end,
    and the whole rejects with the first rejection *)
Fixpoint promise_all (tasks : list (Task unit)) : Task unit :=
  match tasks with
  | [] => ret tt
  | task :: rest =>
      fun w =>
        match task w with
        | (Returned _, w1) => promise_all rest w1
        | (Thrown e, w1) => (Thrown e, snd (promise_all rest w1))
        end
  end.

(** [cacheName !== CACHE_NAME && cacheName !== DATA_CACHE_NAME] *)
Definition is_old_cache (cacheName : string) : bool :=
  negb (String.eqb cacheName CACHE_NAME) && negb (String.eqb cacheName DATA_CACHE_NAME).

(** the activate listener up to the call of [clients.claim()] *)
Definition activate_cleanup (rejects : string -> bool) : Task unit :=
  console_log "[SW] Activating service worker..." ;;
  cacheNames <- caches_keys ;;
  promise_all
    (map (fun cacheName =>
            if is_old_cache cacheName
            then
              console_log "[SW] Deleting old cache:" ;;
              caches_delete rejects cacheName ;;
              ret tt
            else ret tt)
         cacheNames) ;;
  console_log "[SW] Service worker activated".

(** a worker: its world, and whether it controls the open pages *)
Record Worker : Type := mkWorker {
  world : World;
  controls_clients : bool
}.

(** the promise the activate listener hands to [event.waitUntil];
    [clients.claim()] is reached only when the cleanup fulfils *)
Definition activate_listener (rejects : string -> bool) (k : Worker)
  : Outcome unit * Worker :=
  match activate_cleanup rejects (world k) with
  | (Returned _, w') => (Returned tt, mkWorker w' true)
  | (Thrown e, w') => (Thrown e, mkWorker w' (controls_clients k))
  end.

(** *** The events the worker reacts to *)

Inductive Event : Type :=
| Install
| Activate (rejects : string -> bool)
| Fetch (request : Request)
| Sync (tag : string)
| Message (event_data : jsval) (ports : list string)
| Tick.                          (* the interval of the cleanup elapses *)

(** the world after the listener of an event has run; a request the fetch
    listener does not answer leaves the world as it is *)
Definition react (e : Event) (w : World) : World :=
  match e with
  | Install => snd (install_listener w)
  | Activate rejects => snd (activate_cleanup rejects w)
  | Fetch request =>
      match fetch_listener request with
      | Some task => snd (task w)
      | None => w
      end
  | Sync tag => snd (sync_listener tag w)
  | Message event_data ports => snd (message_listener event_data ports w)
  | Tick => snd (cleanup w)
  end.

(** *** The cleanup loop on the data cache alone

    What the loop of [cleanup] does to the entries of the data cache,
    given the requests it enumerated; [sweep_loop] below shows that the
    loop computes exactly this. *)
Fixpoint sweep (cutoff : Z) (requests : list string) (c : Cache)
  : Outcome unit * Cache :=
  match requests with
  | [] => (Returned tt, c)
  | request :: rest =>
      if faulty env (OpMatch DATA_CACHE_NAME request) then (Thrown StorageError, c)
      else
        match cache_lookup request c with
        | None => (Thrown TypeError, c)
        | Some response =>
            if expired cutoff response
            then
              if faulty env (OpDelete DATA_CACHE_NAME request)
              then (Thrown StorageError, c)
              else sweep cutoff rest (cache_remove request c)
            else sweep cutoff rest c
        end
  end.

End Handlers.

(** the data cache of a world *)
Definition data_cache (w : World) : Cache := storage_get DATA_CACHE_NAME (caches w).

(** the static cache of a world *)
Definition static_cache (w : World) : Cache := storage_get CACHE_NAME (caches w).

(** no storage operation rejects *)
Definition healthy (env : Env) : Prop := forall op, faulty env op = false.

(** the capture time the cleanup reads from an entry, when it reads one *)
Definition capture_timestamp (response : Response) : option Z :=
  match headers_get "X-Cache-Timestamp" (headers response) with
  | None => None
  | Some timestamp => if String.eqb timestamp "" then None else parseInt timestamp
  end.

(** the fetch of [request] rejects or answers outside 200..299 *)
Definition network_fails (env : Env) (request : Request) : Prop :=
  match net env (mkNetCall (method request) (url request) None) with
  | NetFail => True
  | NetResp r => ok r = false
  end.

Definition static_markers : list string :=
  [ "/assets/"; "/icons/"; ".css"; ".js"; ".png"; ".jpg"; ".svg" ].

Definition known_actions : list string :=
  [ "SKIP_WAITING"; "CACHE_ANALYSIS"; "QUEUE_OUTCOME"; "GET_CACHE_INFO" ].

(** events in the order they happen, each under the environment of its time *)
Definition run (events : list (Env * Event)) (w : World) : World :=
  fold_left (fun w' ee => react (fst ee) (snd ee) w') events w.

(** every cache holds each request at most once *)
Definition caches_wf (cs : CacheStorage) : Prop :=
  forall name c, In (name, c) cs -> NoDup (cache_requests c).

Definition world_wf (w : World) : Prop := caches_wf (caches w).

(** the only caches are the static and the data cache of this version *)
Definition only_current_caches (w : World) : Prop :=
  forall name, In name (storage_keys (caches w)) ->
               name = CACHE_NAME \/ name = DATA_CACHE_NAME.

(** a task keeps a property of the world, however it ends *)
Definition preserves {A : Type} (I : World -> Prop) (m : Task A) : Prop :=
  forall w, I w -> I (snd (m w)).

(** a property of the world that only the caches decide *)
Definition about_caches (I : World -> Prop) : Prop :=
  forall w w', caches w' = caches w -> I w -> I w'.

(** a task that leaves the caches as they are, however it ends *)
Definition keeps_caches {A : Type} (m : Task A) : Prop :=
  forall w, caches (snd (m w)) = caches w.

(** [!item.synced] *)
Definition is_unsynced (item : jsval) : bool :=
  match prop "synced" item with
  | Some synced => negb (ToBoolean synced)
  | None => false
  end.

(** the POST of a record of the analysis history is answered *)
Definition analysis_post_resolves (env : Env) (item : jsval) : bool :=
  match net env (post "/api/sync/analysis" item) with
  | NetFail => false
  | NetResp _ => true
  end.

(** the positions, counted from [i], of the unsynced items of a history *)
Fixpoint unsynced_from (i : nat) (items : list jsval) : list nat :=
  match items with
  | [] => []
  | item :: rest =>
      if is_unsynced item then i :: unsynced_from (S i) rest
      else unsynced_from (S i) rest
  end.

(** a history in which the unsynced records whose POST is answered are
    marked, and nothing else is changed *)
Definition replayed (env : Env) (history : list jsval) : list jsval :=
  map (fun item =>
         if is_unsynced item && analysis_post_resolves env item
         then mark_synced item else item)
      history.

End SW.

(* ================================================================== *)
(** ** The classifier as the specification words it *)

Module Spec.

(** the text after the first [://] of a URL *)
Fixpoint after_scheme (u : string) : option string :=
  match u with
  | String ":" (String "/" (String "/" rest)) => Some rest
  | String _ rest => after_scheme rest
  | EmptyString => None
  end.

Fixpoint until_query (s : string) : string :=
  match s with
  | EmptyString => EmptyString
  | String c rest =>
      if (Ascii.eqb c "?" || Ascii.eqb c "#")%bool then EmptyString
      else String c (until_query rest)
  end.

Fixpoint from_slash (s : string) : string :=
  match s with
  | EmptyString => "/"
  | String c rest => if Ascii.eqb c "/" then s else from_slash rest
  end.

(** the path of a URL: from the first slash after the host up to the
    query or the fragment *)
Definition url_path (u : string) : string :=
  match after_scheme u with
  | Some rest => from_slash (until_query rest)
  | None => until_query u
  end.

Definition static_extensions : list string :=
  [ ".css"; ".js"; ".png"; ".jpg"; ".svg" ].

(** "URL path contains an assets/icons segment or ends in a recognized
    static extension (style/script/image)" *)
Definition is_static (u : string) : bool :=
  let path := url_path u in
  Str.includes "/assets/" path || Str.includes "/icons/" path ||
  existsb (fun ext => Str.endsWith ext path) static_extensions.

(** "[api]: URL host matches one of a fixed set of known data-provider
    domain patterns; [default]: everything else" *)
Definition classify (u : string) : SW.Strategy :=
  if SW.isAPIRequest u then SW.Api
  else if is_static u then SW.Static
  else SW.Default.

End Spec.

(* ================================================================== *)
(** ** Notifications *)

Module Notify.
Import JS SW.

(** [a || b] *)
Definition or_else (a b : jsval) : jsval := if ToBoolean a then a else b.

Record NotificationAction : Type := mkAction {
  act_action : string;
  act_title : string;
  act_icon : string
}.

(** what the push listener passes to [showNotification]: the title and
    the options, the notification's own [data] spread into [n_url] and
    [n_timestamp] *)
Record Notification : Type := mkNotification {
  n_title : jsval;
  n_body : jsval;
  n_icon : string;
  n_badge : string;
  n_tag : jsval;
  n_requireInteraction : jsval;
  n_actions : list NotificationAction;
  n_url : jsval;
  n_timestamp : Z
}.

(** The push listener, on the value [event.data.json()] of the payload
    ([None] where the event carries no data).  The result is the
    notification shown, if any; reading a field of a [null] payload
    throws. *)
Definition push_listener (env : Env) (payload : option jsval)
  : Outcome (option Notification) :=
  match payload with
  | None => Returned None
  | Some data =>
      match prop "body" data, prop "tag" data, prop "requireInteraction" data,
            prop "url" data, prop "title" data with
      | Some body, Some tag, Some requireInteraction, Some url, Some title =>
          Returned
            (Some (mkNotification
                     (or_else title (VStr "Meme Coin Analyzer"))
                     (or_else body (VStr "New update available"))
                     "/assets/icons/icon-192x192.png"
                     "/assets/icons/badge-72x72.png"
                     (or_else tag (VStr "default"))
                     (or_else requireInteraction (VBool false))
                     [ mkAction "view" "View Details" "/assets/icons/action-view.png";
                       mkAction "dismiss" "Dismiss" "/assets/icons/action-dismiss.png" ]
                     (or_else url (VStr "/"))
                     (now env)))
      | _, _, _, _, _ => Thrown TypeError
      end
  end.

(** [event.notification.data] of a notification the push listener showed *)
Definition notification_data (n : Notification) : jsval :=
  VObj [ ("url", n_url n); ("timestamp", VNum (n_timestamp n)) ].

Inductive ClickEffect : Type :=
| CloseNotification
| FocusClient (index : nat)      (* [client.focus()] on the client at [index] *)
| OpenWindow (target : jsval).   (* [clients.openWindow(target)] *)

(** [client.url === urlToOpen] *)
Definition is_at (client_url : string) (urlToOpen : jsval) : bool :=
  match urlToOpen with
  | VStr s => String.eqb client_url s
  | _ => false
  end.

(** the loop over the window clients: the first one at the URL, counted
    from [i] *)
Fixpoint first_client_at (i : nat) (clientList : list string) (urlToOpen : jsval)
  : option nat :=
  match clientList with
  | [] => None
  | client_url :: rest =>
      if is_at client_url urlToOpen then Some i
      else first_client_at (S i) rest urlToOpen
  end.

(** [notificationData?.url || '/'] *)
Definition url_to_open (notificationData : jsval) : jsval :=
  or_else (match prop "url" notificationData with
           | Some u => u
           | None => VUndefined
           end)
          (VStr "/").

(** The notificationclick listener, on the action clicked, the data of
    the notification and the URLs of the window clients as
    [clients.matchAll] lists them; the result is what it does, in order.
    Every client listed is a window client, which has [focus], and the
    platform of a service worker offers [clients.openWindow]. *)
Definition notificationclick_listener (action : string) (notificationData : jsval)
           (clientList : list string) : list ClickEffect :=
  CloseNotification ::
  (if String.eqb action "dismiss" then []
   else
     match first_client_at 0 clientList (url_to_open notificationData) with
     | Some i => [FocusClient i]
     | None => [OpenWindow (url_to_open notificationData)]
     end).

End Notify.

(* ================================================================== *)
(** ** Worlds, requests and environments used as concrete instances *)

Module Sample.
Import JS Web SW.

Definition clock : Z := 1700000000000.

Definition no_fault : StorageOp -> bool := fun _ => false.

Definition offline : Env := mkEnv clock (fun _ => NetFail) no_fault.

Definition online (r : Response) : Env := mkEnv clock (fun _ => NetResp r) no_fault.

Definition price : Response :=
  mkResponse 200 "OK" [ ("content-type", "application/json") ] (BodyText "{ pepe: 0.0000012 }").

Definition ping : Request :=
  mkRequest "https://api.coingecko.com/api/v3/simple/price?ids=pepe" "GET" [].

Definition icon : Response :=
  mkResponse 200 "OK" [ ("content-type", "image/png") ] (BodyText "PNG").

Definition logo : Request :=
  mkRequest "https://memes.example/assets/icons/icon-192x192.png" "GET" [].

(** a stored response stamped with a capture time *)
Definition stamped (timestamp : string) : Response :=
  mkResponse 200 "OK" [ ("x-cache-timestamp", timestamp) ] (BodyText "quote").

(** captured 3601 s and 3599 s before [clock] *)
Definition old_entry : Response := stamped "1699996399000".
Definition young_entry : Response := stamped "1699996401000".

Definition world_with_data (c : Cache) : World :=
  with_caches (fun _ => [ (DATA_CACHE_NAME, c) ]) empty_world.

Definition two_quotes : World :=
  world_with_data [ ("/quote/old", old_entry); ("/quote/young", young_entry) ].

Definition two_old_quotes : World :=
  world_with_data [ ("/quote/a", old_entry); ("/quote/b", old_entry) ].

(** only reading the entry [/quote/a] of the data cache rejects *)
Definition read_fault : StorageOp -> bool :=
  fun op =>
    match op with
    | OpMatch _ key => String.eqb key "/quote/a"
    | _ => false
    end.

Definition flaky_storage : Env := mkEnv clock (fun _ => NetFail) read_fault.

Definition outcome_report : jsval :=
  VObj [ ("contractAddress", VStr "0xabc"); ("outcome", VStr "rug"); ("synced", VBool false) ].

Definition world_with_pending (records : list jsval) : World :=
  with_localStorage (fun _ => [ ("pendingOutcomes", records) ]) empty_world.

Definition world_with_history (records : list jsval) : World :=
  with_localStorage (fun _ => [ ("memeAnalysisHistory", records) ]) empty_world.

(** a network on which only [/manifest.json] cannot be fetched *)
Definition manifest_missing : Env :=
  mkEnv clock
        (fun c => if String.eqb (nc_url c) "/manifest.json" then NetFail else NetResp icon)
        no_fault.

(** a server that stamps its answers *)
Definition stamped_answer : Env := online (stamped "1").

Definition shell : Response :=
  mkResponse 200 "OK" [ ("content-type", "text/html") ] (BodyText "<!doctype html>").

(** a navigation to a page of the application *)
Definition page : Request :=
  mkRequest "https://memes.example/history" "GET"
            [ ("accept", "text/html,application/xhtml+xml") ].


Definition world_with_static (c : Cache) : World :=
  with_caches (fun _ => [ (CACHE_NAME, c) ]) empty_world.

(** three analyses: one synced already, two not *)
Definition three_analyses : list jsval :=
  [ VObj [("contractAddress", VStr "0xa"); ("synced", VBool true)];
    VObj [("contractAddress", VStr "0xb"); ("synced", VBool false)];
    VObj [("contractAddress", VStr "0xc"); ("synced", VBool false)] ].

(** an endpoint that rejects the analysis of [0xb] and answers the others *)
Definition flaky_endpoint : Env :=
  mkEnv clock
        (fun c =>
           match nc_body c with
           | Some record =>
               match prop "contractAddress" record with
               | Some (VStr "0xb") => NetFail
               | _ => NetResp price
               end
           | None => NetResp price
           end)
        no_fault.

(** the caches of two versions side by side *)
Definition three_caches : World :=
  with_caches
    (fun _ => [ ("meme-coin-analyzer-v0.9.0", [("/", icon)]);
                (CACHE_NAME, [("/", icon)]);
                (DATA_CACHE_NAME, []) ])
    empty_world.

End Sample.

(* ================================================================== *)
(** * Properties *)

Import JS Web SW.

Local Open Scope list_scope.

(** ** Strings *)

Lemma prefix_app (p u : string) :
  String.prefix p u = true <-> exists rest, u = (p ++ rest)%string.
Proof.
  revert u; induction p as [|a p IH]; intros u.
  - split; [intros _; exists u; reflexivity | intros _; destruct u; reflexivity].
  - destruct u as [|b u]; simpl.
    + split; [discriminate | intros [rest H]; discriminate].
    + destruct (ascii_dec a b) as [->|Hab].
      * rewrite IH. split; intros [rest H]; exists rest.
        -- now rewrite H.
        -- now inversion H.
      * split; [discriminate | intros [rest H]; inversion H; congruence].
Qed.

Lemma includes_app (needle hay : string) :
  Str.includes needle hay = true <->
  exists before rest, hay = (before ++ needle ++ rest)%string.
Proof.
  induction hay as [|c hay IH]; cbn [Str.includes].
  - rewrite orb_false_r, prefix_app. split.
    + intros [rest H]. exists EmptyString, rest. exact H.
    + intros [before [rest H]]. destruct before; simpl in H.
      * now exists rest.
      * discriminate.
  - rewrite orb_true_iff, IH, prefix_app. split.
    + intros [[rest H] | [before [rest H]]].
      * exists EmptyString, rest. exact H.
      * exists (String c before), rest. simpl. now rewrite H.
    + intros [before [rest H]]. destruct before as [|b before]; simpl in H.
      * left. now exists rest.
      * right. inversion H. now exists before, rest.
Qed.

(** ** The classifier *)

Lemma isAPIRequest_patterns (u : string) :
  isAPIRequest u = true <->
  exists p, In p API_CACHE_PATTERNS /\ String.prefix p u = true.
Proof. unfold isAPIRequest, pattern_test. apply existsb_exists. Qed.

Lemma isStaticAsset_markers (u : string) :
  isStaticAsset u = existsb (fun m => Str.includes m u) static_markers.
Proof.
  unfold isStaticAsset, static_markers. simpl.
  rewrite orb_false_r, <- !orb_assoc. reflexivity.
Qed.

Lemma existsb_none {A : Type} (f : A -> bool) (l : list A) :
  existsb f l = false <-> forall x, In x l -> f x = false.
Proof.
  induction l as [|a l IH]; simpl.
  - split; [intros _ x [] | reflexivity].
  - rewrite orb_false_iff, IH. split.
    + intros [Ha Hl] x [<-|Hx]; auto.
    + intros H. split; [apply H; now left | intros x Hx; apply H; now right].
Qed.

Lemma classify_cases (u : string) :
  (classify u = Api <-> isAPIRequest u = true) /\
  (classify u = Static <-> isAPIRequest u = false /\ isStaticAsset u = true) /\
  (classify u = Default <-> isAPIRequest u = false /\ isStaticAsset u = false).
Proof.
  unfold classify.
  destruct (isAPIRequest u), (isStaticAsset u);
    repeat split; intros; try discriminate; try tauto;
    match goal with H : _ /\ _ |- _ => destruct H; discriminate end.
Qed.

Lemma isStaticAsset_text (u : string) :
  isStaticAsset u = true <->
  exists m before rest, In m static_markers /\ u = (before ++ m ++ rest)%string.
Proof.
  rewrite isStaticAsset_markers, existsb_exists. split.
  - intros [m [Hin Hm]]. apply includes_app in Hm. destruct Hm as [before [rest H]].
    now exists m, before, rest.
  - intros [m [before [rest [Hin H]]]]. exists m. split; [exact Hin|].
    apply includes_app. now exists before, rest.
Qed.

Lemma isAPIRequest_text (u : string) :
  isAPIRequest u = true <->
  exists p rest, In p API_CACHE_PATTERNS /\ u = (p ++ rest)%string.
Proof.
  rewrite isAPIRequest_patterns. split.
  - intros [p [Hin Hp]]. apply prefix_app in Hp. destruct Hp as [rest H].
    now exists p, rest.
  - intros [p [rest [Hin H]]]. exists p. split; [exact Hin|].
    apply prefix_app. now exists rest.
Qed.

(** C8, as the code has it: the classifier is a total function into the
    three strategies; it answers [Api] exactly when the URL text starts
    with one of the four provider prefixes; otherwise [Static] exactly when
    the URL text contains, anywhere, one of [/assets/], [/icons/], [.css],
    [.js], [.png], [.jpg], [.svg]; and [Default] in every other case. *)
Theorem classify_reads_whole_url (u : string) :
  (classify u = Api \/ classify u = Static \/ classify u = Default) /\
  (classify u = Api <->
     exists p rest, In p API_CACHE_PATTERNS /\ u = (p ++ rest)%string) /\
  (classify u = Static <->
     classify u <> Api /\
     exists m before rest, In m static_markers /\ u = (before ++ m ++ rest)%string) /\
  (classify u = Default <->
     classify u <> Api /\
     ~ exists m before rest, In m static_markers /\ u = (before ++ m ++ rest)%string).
Proof.
  rewrite <- isStaticAsset_text, <- isAPIRequest_text.
  destruct (classify_cases u) as [Hapi [Hstatic Hdefault]].
  rewrite Hapi, Hstatic, Hdefault.
  split; [unfold classify; destruct (isAPIRequest u), (isStaticAsset u); auto|].
  destruct (isAPIRequest u), (isStaticAsset u); repeat split;
    intros; try discriminate; try tauto; try congruence;
    try (match goal with H : _ /\ _ |- _ => destruct H end; congruence).
Qed.

(** C8, as the specification words it, fails: a URL whose path is [/] is
    classified [Static] because its host contains [.js]. *)
Lemma classify_not_by_path :
  classify "https://cdn.jsdelivr.net/" = Static /\
  Spec.url_path "https://cdn.jsdelivr.net/" = "/" /\
  Spec.classify "https://cdn.jsdelivr.net/" = Default /\
  classify "https://cdn.jsdelivr.net/" <> Spec.classify "https://cdn.jsdelivr.net/".
Proof. repeat split; try reflexivity. vm_compute. discriminate. Qed.

(** ** Caches *)

Lemma assoc_app {A : Type} (k : string) (l1 l2 : list (string * A)) :
  assoc k (l1 ++ l2) =
  match assoc k l1 with Some v => Some v | None => assoc k l2 end.
Proof.
  induction l1 as [|[k' v] l1 IH]; simpl; [reflexivity|].
  destruct (String.eqb k k'); [reflexivity | exact IH].
Qed.

Lemma lookup_remove_same (k : string) (c : Cache) :
  cache_lookup k (cache_remove k c) = None.
Proof.
  unfold cache_lookup, cache_remove.
  induction c as [|[k' r] c IH]; simpl; [reflexivity|].
  destruct (String.eqb k k') eqn:E; simpl; [exact IH | now rewrite E].
Qed.

Lemma lookup_remove_other (k k' : string) (c : Cache) :
  k <> k' -> cache_lookup k (cache_remove k' c) = cache_lookup k c.
Proof.
  intros Hne. unfold cache_lookup, cache_remove.
  induction c as [|[k0 r] c IH]; simpl; [reflexivity|].
  destruct (String.eqb k' k0) eqn:E; simpl.
  - apply String.eqb_eq in E. subst k0.
    destruct (String.eqb k k') eqn:E'; [apply String.eqb_eq in E'; contradiction | exact IH].
  - destruct (String.eqb k k0); [reflexivity | exact IH].
Qed.

Lemma lookup_store_same (k : string) (r : Response) (c : Cache) :
  cache_lookup k (cache_store k r c) = Some r.
Proof.
  unfold cache_store, cache_lookup. rewrite assoc_app.
  fold (cache_lookup k (cache_remove k c)). rewrite lookup_remove_same.
  simpl. now rewrite String.eqb_refl.
Qed.

Lemma lookup_store_other (k k' : string) (r : Response) (c : Cache) :
  k <> k' -> cache_lookup k (cache_store k' r c) = cache_lookup k c.
Proof.
  intros Hne. unfold cache_store, cache_lookup. rewrite assoc_app.
  fold (cache_lookup k (cache_remove k' c)). rewrite (lookup_remove_other _ _ _ Hne).
  unfold cache_lookup. destruct (assoc k c); [reflexivity|].
  simpl. destruct (String.eqb k k') eqn:E; [apply String.eqb_eq in E; contradiction | reflexivity].
Qed.

Lemma storage_get_update (name : string) (f : Cache -> Cache) (cs : CacheStorage) :
  storage_get name (storage_update name f cs) =
  match assoc name cs with Some c => f c | None => [] end.
Proof.
  unfold storage_get.
  induction cs as [|[n c] cs IH]; simpl; [reflexivity|].
  destruct (String.eqb name n) eqn:E; simpl; rewrite E; [reflexivity | exact IH].
Qed.

Lemma assoc_storage_open (name : string) (cs : CacheStorage) :
  assoc name (storage_open name cs) = Some (storage_get name cs).
Proof.
  unfold storage_open, storage_get.
  destruct (assoc name cs) eqn:E; [exact E|].
  rewrite assoc_app, E. simpl. now rewrite String.eqb_refl.
Qed.

Lemma storage_get_open (name : string) (cs : CacheStorage) :
  storage_get name (storage_open name cs) = storage_get name cs.
Proof. unfold storage_get at 1. now rewrite assoc_storage_open. Qed.

Lemma storage_open_present (name : string) (cs : CacheStorage) (c : Cache) :
  assoc name cs = Some c -> storage_open name cs = cs.
Proof. intros H. unfold storage_open. now rewrite H. Qed.

Lemma assoc_storage_update (name : string) (f : Cache -> Cache) (cs : CacheStorage) :
  assoc name (storage_update name f cs) = option_map f (assoc name cs).
Proof.
  induction cs as [|[n c] cs IH]; simpl; [reflexivity|].
  destruct (String.eqb name n) eqn:E; simpl; rewrite E; [reflexivity | exact IH].
Qed.

Lemma storage_update_twice (name : string) (f g : Cache -> Cache) (cs : CacheStorage) :
  storage_update name f (storage_update name g cs) =
  storage_update name (fun c => f (g c)) cs.
Proof.
  induction cs as [|[n c] cs IH]; simpl; [reflexivity|].
  destruct (String.eqb name n) eqn:E; simpl; rewrite E; [reflexivity | now rewrite IH].
Qed.

Lemma storage_update_same (name : string) (f : Cache -> Cache) (cs : CacheStorage) :
  f (storage_get name cs) = storage_get name cs ->
  storage_update name f cs = cs.
Proof.
  unfold storage_get.
  induction cs as [|[n c] cs IH]; simpl; [reflexivity|].
  destruct (String.eqb name n) eqn:E; intros H; [now rewrite H | now rewrite IH].
Qed.

(** a request found nowhere is found, after a write into the cache [name],
    with the response written *)
Lemma storage_match_written (k name : string) (r : Response) (cs : CacheStorage) :
  storage_match k cs = None ->
  storage_match k (storage_update name (cache_store k r) (storage_open name cs)) = Some r.
Proof.
  intros Hmiss.
  assert (Hin : forall c, assoc name cs = Some c ->
            storage_match k (storage_update name (cache_store k r) cs) = Some r).
  { clear - Hmiss. induction cs as [|[n c0] cs IH]; simpl; [discriminate|].
    simpl in Hmiss. destruct (cache_lookup k c0) eqn:E0; [discriminate|].
    intros c. destruct (String.eqb name n) eqn:E; simpl.
    - intros _. now rewrite lookup_store_same.
    - rewrite E0. apply IH, Hmiss. }
  assert (Hout : storage_match k (storage_update name (cache_store k r)
                                   (cs ++ [(name, [])])) = Some r).
  { clear Hin. induction cs as [|[n c0] cs IH]; simpl.
    - rewrite String.eqb_refl. simpl. now rewrite lookup_store_same.
    - simpl in Hmiss. destruct (cache_lookup k c0) eqn:E0; [discriminate|].
      destruct (String.eqb name n) eqn:E; simpl.
      + now rewrite lookup_store_same.
      + rewrite E0. apply IH, Hmiss. }
  unfold storage_open. destruct (assoc name cs) eqn:E; [apply (Hin _ eq_refl) | exact Hout].
Qed.

(** ** The api strategy *)

Section ApiStrategy.

Variable env : Env.
Variable request : Request.

Lemma handleAPIRequest_online (w : World) (r : Response) :
  net env (mkNetCall (method request) (url request) None) = NetResp r ->
  ok r = true ->
  faulty env (OpOpen DATA_CACHE_NAME) = false ->
  faulty env (OpPut DATA_CACHE_NAME (url request)) = false ->
  handleAPIRequest env request w =
  (Returned r,
   with_caches (fun cs => storage_update DATA_CACHE_NAME (cache_store (url request) r)
                            (storage_open DATA_CACHE_NAME cs))
     (with_network (fun l => l ++ [mkNetCall (method request) (url request) None]) w)).
Proof.
  intros Hnet Hok Hopen Hput.
  unfold handleAPIRequest, try_catch, bind, fetch_request, fetch.
  rewrite Hnet, Hok.
  unfold caches_open, cache_put, storage_op, bind, ret, clone.
  rewrite Hopen, Hput. reflexivity.
Qed.



End ApiStrategy.


Lemma fetch_listener_static (env : Env) (request : Request) :
  method request = "GET" ->
  classify (url request) = Static ->
  fetch_listener env request =
  Some (bind (handleStaticRequest env request) (fun r => ret (Some r))).
Proof.
  intros Hget Hstatic. unfold fetch_listener. rewrite Hget. simpl.
  unfold classify in Hstatic. destruct (isAPIRequest (url request)); [discriminate|].
  destruct (isStaticAsset (url request)); [reflexivity | discriminate].
Qed.





(** ** The static strategy *)

Section StaticStrategy.

Variable request : Request.

Lemma handleStaticRequest_hit (env : Env) (w : World) (cached : Response) :
  storage_match (url request) (caches w) = Some cached ->
  faulty env (OpCachesMatch (url request)) = false ->
  handleStaticRequest env request w = (Returned cached, w).
Proof.
  intros Hhit Hmatch.
  unfold handleStaticRequest, try_catch, bind, caches_match, storage_op.
  rewrite Hmatch, Hhit. reflexivity.
Qed.

Lemma handleStaticRequest_miss (env : Env) (w : World) (r : Response) :
  storage_match (url request) (caches w) = None ->
  net env (mkNetCall (method request) (url request) None) = NetResp r ->
  ok r = true ->
  faulty env (OpCachesMatch (url request)) = false ->
  faulty env (OpOpen CACHE_NAME) = false ->
  faulty env (OpPut CACHE_NAME (url request)) = false ->
  handleStaticRequest env request w =
  (Returned r,
   with_caches (fun cs => storage_update CACHE_NAME (cache_store (url request) r)
                            (storage_open CACHE_NAME cs))
     (with_network
        (fun l => l ++ [mkNetCall (method request) (url request) None]) w)).
Proof.
  intros Hmiss Hnet Hok Hmatch Hopen Hput.
  unfold handleStaticRequest, try_catch, bind, caches_match, storage_op.
  rewrite Hmatch, Hmiss.
  unfold fetch_request, fetch. rewrite Hnet, Hok.
  unfold caches_open, cache_put, storage_op, bind, ret, clone.
  rewrite Hopen, Hput. reflexivity.
Qed.

End StaticStrategy.

(** C9: for a GET request classified [Static], once a first request has
    populated the static cache (nothing was cached, the fetch answered in
    200..299 and was stored), a second identical request is answered with
    the stored response, unchanged, and leaves the world as it was: the log
    of network calls does not grow, whatever the network would answer. *)
Theorem static_cache_first (env1 env2 : Env) (request : Request) (w : World)
        (r : Response) :
  method request = "GET" ->
  classify (url request) = Static ->
  storage_match (url request) (caches w) = None ->
  net env1 (mkNetCall (method request) (url request) None) = NetResp r ->
  ok r = true ->
  faulty env1 (OpCachesMatch (url request)) = false ->
  faulty env1 (OpOpen CACHE_NAME) = false ->
  faulty env1 (OpPut CACHE_NAME (url request)) = false ->
  faulty env2 (OpCachesMatch (url request)) = false ->
  exists first second w1,
    fetch_listener env1 request = Some first /\
    fetch_listener env2 request = Some second /\
    first w = (Returned (Some r), w1) /\
    cache_lookup (url request) (static_cache w1) = Some r /\
    second w1 = (Returned (Some r), w1) /\
    network (snd (second w1)) = network w1.
Proof.
  intros Hget Hstatic Hmiss Hnet Hok Hmatch1 Hopen Hput Hmatch2.
  eexists. eexists. eexists.
  split; [apply (fetch_listener_static env1 request Hget Hstatic)|].
  split; [apply (fetch_listener_static env2 request Hget Hstatic)|].
  unfold bind at 1.
  rewrite (handleStaticRequest_miss request env1 w r Hmiss Hnet Hok Hmatch1 Hopen Hput).
  split; [reflexivity|].
  split.
  { unfold static_cache. simpl.
    rewrite storage_get_update, assoc_storage_open. apply lookup_store_same. }
  assert (Hsecond :
    bind (handleStaticRequest env2 request) (fun r0 => ret (Some r0))
      (with_caches (fun cs => storage_update CACHE_NAME (cache_store (url request) r)
                                (storage_open CACHE_NAME cs))
         (with_network
            (fun l => l ++ [mkNetCall (method request) (url request) None]) w)) =
    (Returned (Some r),
     with_caches (fun cs => storage_update CACHE_NAME (cache_store (url request) r)
                              (storage_open CACHE_NAME cs))
       (with_network
          (fun l => l ++ [mkNetCall (method request) (url request) None]) w))).
  { unfold bind. rewrite (handleStaticRequest_hit request env2 _ r); [reflexivity | | exact Hmatch2].
    simpl. apply storage_match_written, Hmiss. }
  split; [exact Hsecond | now rewrite Hsecond].
Qed.

Lemma static_cache_first_witness :
  exists first second w1,
    fetch_listener (Sample.online Sample.icon) Sample.logo = Some first /\
    fetch_listener Sample.offline Sample.logo = Some second /\
    first empty_world = (Returned (Some Sample.icon), w1) /\
    cache_lookup (url Sample.logo) (static_cache w1) = Some Sample.icon /\
    second w1 = (Returned (Some Sample.icon), w1) /\
    network (snd (second w1)) = network w1.
Proof.
  apply (static_cache_first (Sample.online Sample.icon) Sample.offline Sample.logo
           empty_world Sample.icon); reflexivity.
Defined.

(** ** The periodic cleanup *)

Lemma with_caches_same (f : CacheStorage -> CacheStorage) (w : World) :
  f (caches w) = caches w -> with_caches f w = w.
Proof. destruct w. unfold with_caches. simpl. now intros ->. Qed.

Lemma with_caches_ext (f g : CacheStorage -> CacheStorage) (w : World) :
  f (caches w) = g (caches w) -> with_caches f w = with_caches g w.
Proof. unfold with_caches. now intros ->. Qed.

Lemma with_caches_twice (f g : CacheStorage -> CacheStorage) (w : World) :
  with_caches f (with_caches g w) = with_caches (fun cs => f (g cs)) w.
Proof. reflexivity. Qed.

Lemma storage_get_present (name : string) (cs : CacheStorage) (c : Cache) :
  assoc name cs = Some c -> storage_get name cs = c.
Proof. unfold storage_get. now intros ->. Qed.

Lemma lookup_in_requests (k : string) (c : Cache) :
  In k (cache_requests c) -> exists r, cache_lookup k c = Some r.
Proof.
  unfold cache_requests, cache_lookup.
  induction c as [|[k' r] c IH]; simpl; [intros []|].
  intros [<-|Hin].
  - exists r. now rewrite String.eqb_refl.
  - destruct (String.eqb k k'); [now exists r | now apply IH].
Qed.

Lemma requests_of_lookup (k : string) (c : Cache) (r : Response) :
  cache_lookup k c = Some r -> In k (cache_requests c).
Proof.
  unfold cache_requests, cache_lookup.
  induction c as [|[k' r'] c IH]; simpl; [discriminate|].
  destruct (String.eqb k k') eqn:E.
  - apply String.eqb_eq in E. now left.
  - intros H. right. now apply IH.
Qed.

Lemma expired_capture (cutoff : Z) (r : Response) :
  expired cutoff r =
  match capture_timestamp r with Some t => t <? cutoff | None => false end.
Proof.
  unfold expired, capture_timestamp.
  destruct (headers_get "X-Cache-Timestamp" (headers r)) as [ts|]; [|reflexivity].
  destruct (String.eqb ts ""); simpl; [reflexivity|].
  now destruct (parseInt ts).
Qed.

Section Sweep.

Variable env : Env.
Variable cutoff : Z.

(** the loop of [cleanup] computes [sweep] on the data cache *)
Lemma sweep_loop (requests : list string) :
  forall (w : World) (c : Cache),
    assoc DATA_CACHE_NAME (caches w) = Some c ->
    for_of requests
      (fun request =>
         bind (cache_match env DATA_CACHE_NAME request) (fun found =>
         bind (defined found) (fun response =>
         if expired cutoff response
         then bind (cache_delete env DATA_CACHE_NAME request) (fun _ => ret tt)
         else ret tt))) w =
    (fst (sweep env cutoff requests c),
     with_caches (storage_update DATA_CACHE_NAME
                    (fun _ => snd (sweep env cutoff requests c))) w).
Proof.
  assert (Hstay : forall (w : World) (c : Cache),
             assoc DATA_CACHE_NAME (caches w) = Some c ->
             w = with_caches (storage_update DATA_CACHE_NAME (fun _ => c)) w).
  { intros w c Hc. symmetry. apply with_caches_same, storage_update_same.
    symmetry. now apply storage_get_present. }
  induction requests as [|k ks IH]; intros w c Hc.
  - simpl. unfold ret. f_equal. now apply Hstay.
  - cbn [for_of sweep].
    set (loop := for_of ks _) in *.
    unfold bind, cache_match, cache_delete, storage_op, defined, throw, ret.
    destruct (faulty env (OpMatch DATA_CACHE_NAME k)).
    { simpl. f_equal. now apply Hstay. }
    rewrite (storage_get_present _ _ _ Hc).
    destruct (cache_lookup k c) as [r|].
    2:{ simpl. f_equal. now apply Hstay. }
    destruct (expired cutoff r).
    2:{ apply IH, Hc. }
    destruct (faulty env (OpDelete DATA_CACHE_NAME k)).
    { simpl. f_equal. now apply Hstay. }
    rewrite (IH _ (cache_remove k c)).
    + f_equal. rewrite with_caches_twice. apply with_caches_ext.
      apply storage_update_twice.
    + simpl. rewrite assoc_storage_update, Hc. reflexivity.
Qed.

(** an entry that is not expired stays, whatever faults *)
Lemma sweep_keeps (requests : list string) :
  forall (c : Cache) (k : string) (r : Response),
    cache_lookup k c = Some r ->
    expired cutoff r = false ->
    cache_lookup k (snd (sweep env cutoff requests c)) = Some r.
Proof.
  induction requests as [|k0 ks IH]; intros c k r Hk Hfresh; simpl; [exact Hk|].
  destruct (faulty env (OpMatch DATA_CACHE_NAME k0)); [exact Hk|].
  destruct (cache_lookup k0 c) as [r0|] eqn:E0; [|exact Hk].
  destruct (expired cutoff r0) eqn:Ex; [|now apply IH].
  destruct (faulty env (OpDelete DATA_CACHE_NAME k0)); [exact Hk|].
  apply IH; [|exact Hfresh].
  rewrite lookup_remove_other; [exact Hk|].
  intros ->. rewrite E0 in Hk. inversion Hk. subst. congruence.
Qed.

(** the sweep adds nothing and replaces nothing *)
Lemma sweep_only_removes (requests : list string) :
  forall (c : Cache) (k : string),
    cache_lookup k (snd (sweep env cutoff requests c)) = None \/
    cache_lookup k (snd (sweep env cutoff requests c)) = cache_lookup k c.
Proof.
  induction requests as [|k0 ks IH]; intros c k; simpl; [now right|].
  destruct (faulty env (OpMatch DATA_CACHE_NAME k0)); [now right|].
  destruct (cache_lookup k0 c) as [r0|] eqn:E0; [|now right].
  destruct (expired cutoff r0) eqn:Ex; [|apply IH].
  destruct (faulty env (OpDelete DATA_CACHE_NAME k0)); [now right|].
  destruct (IH (cache_remove k0 c) k) as [H|H]; [now left|].
  rewrite H. destruct (String.eqb k k0) eqn:E.
  - apply String.eqb_eq in E. subst. left. apply lookup_remove_same.
  - right. apply lookup_remove_other. intros ->. now rewrite String.eqb_refl in E.
Qed.

(** requests that are not enumerated are not touched *)
Lemma sweep_elsewhere (requests : list string) :
  forall (c : Cache) (k : string),
    ~ In k requests ->
    cache_lookup k (snd (sweep env cutoff requests c)) = cache_lookup k c.
Proof.
  induction requests as [|k0 ks IH]; intros c k Hout; simpl; [reflexivity|].
  assert (Hne : k <> k0) by (intros ->; apply Hout; now left).
  assert (Hks : ~ In k ks) by (intros H; apply Hout; now right).
  destruct (faulty env (OpMatch DATA_CACHE_NAME k0)); [reflexivity|].
  destruct (cache_lookup k0 c) as [r0|]; [|reflexivity].
  destruct (expired cutoff r0); [|now apply IH].
  destruct (faulty env (OpDelete DATA_CACHE_NAME k0)); [reflexivity|].
  rewrite (IH _ _ Hks). now apply lookup_remove_other.
Qed.

(** a sweep that reaches its end has removed every expired entry it
    enumerated *)
Lemma sweep_evicts (requests : list string) :
  forall (c : Cache) (k : string) (r : Response),
    fst (sweep env cutoff requests c) = Returned tt ->
    In k requests ->
    cache_lookup k c = Some r ->
    expired cutoff r = true ->
    cache_lookup k (snd (sweep env cutoff requests c)) = None.
Proof.
  induction requests as [|k0 ks IH]; intros c k r Hend Hin Hk Hold; [destruct Hin|].
  simpl in Hend |- *.
  destruct (faulty env (OpMatch DATA_CACHE_NAME k0)); [discriminate|].
  destruct (cache_lookup k0 c) as [r0|] eqn:E0; [|discriminate].
  destruct (String.eqb k k0) eqn:E.
  - apply String.eqb_eq in E. subst k0. rewrite Hk in E0. inversion E0. subst r0.
    rewrite Hold in Hend |- *.
    destruct (faulty env (OpDelete DATA_CACHE_NAME k)); [discriminate|].
    destruct (sweep_only_removes ks (cache_remove k c) k) as [H|H]; [exact H|].
    rewrite H. apply lookup_remove_same.
  - assert (Hne : k <> k0) by (intros ->; now rewrite String.eqb_refl in E).
    assert (Hks : In k ks) by (destruct Hin as [->|H]; [contradiction | exact H]).
    destruct (expired cutoff r0); [|now apply (IH c k r)].
    destruct (faulty env (OpDelete DATA_CACHE_NAME k0)); [discriminate|].
    apply (IH _ k r); auto.
    now rewrite lookup_remove_other.
Qed.

(** with no fault on the enumerated requests, each of them distinct and
    stored, the sweep reaches its end *)
Lemma sweep_completes (requests : list string) :
  forall (c : Cache),
    (forall k, In k requests ->
       faulty env (OpMatch DATA_CACHE_NAME k) = false /\
       faulty env (OpDelete DATA_CACHE_NAME k) = false) ->
    NoDup requests ->
    (forall k, In k requests -> exists r, cache_lookup k c = Some r) ->
    fst (sweep env cutoff requests c) = Returned tt.
Proof.
  induction requests as [|k0 ks IH]; intros c Hok Hnd Hall; simpl; [reflexivity|].
  destruct (Hok k0 (or_introl eq_refl)) as [Hm Hd]. rewrite Hm.
  destruct (Hall k0 (or_introl eq_refl)) as [r0 E0]. rewrite E0.
  inversion Hnd as [|? ? Hout Hnd']. subst.
  assert (Hok' : forall k, In k ks ->
             faulty env (OpMatch DATA_CACHE_NAME k) = false /\
             faulty env (OpDelete DATA_CACHE_NAME k) = false)
    by (intros k Hk; apply Hok; now right).
  destruct (expired cutoff r0).
  - rewrite Hd. apply IH; auto.
    intros k Hk. destruct (Hall k (or_intror Hk)) as [r Hr]. exists r.
    rewrite lookup_remove_other; [exact Hr|]. intros ->. contradiction.
  - apply IH; auto. intros k Hk. apply Hall. now right.
Qed.

(** where nothing enumerated is expired, the sweep changes nothing *)
Lemma sweep_nothing_to_do (requests : list string) (c : Cache) :
  (forall k, In k requests -> faulty env (OpMatch DATA_CACHE_NAME k) = false) ->
  (forall k, In k requests ->
     exists r, cache_lookup k c = Some r /\ expired cutoff r = false) ->
  sweep env cutoff requests c = (Returned tt, c).
Proof.
  induction requests as [|k0 ks IH]; intros Hok Hall; simpl; [reflexivity|].
  rewrite (Hok k0 (or_introl eq_refl)).
  destruct (Hall k0 (or_introl eq_refl)) as [r0 [E0 Ex]]. rewrite E0, Ex.
  apply IH; intros k Hk; [apply Hok | apply Hall]; now right.
Qed.

Lemma sweep_app (before rest : list string) :
  forall (c : Cache),
    sweep env cutoff (before ++ rest) c =
    match sweep env cutoff before c with
    | (Returned _, c1) => sweep env cutoff rest c1
    | (Thrown e, c1) => (Thrown e, c1)
    end.
Proof.
  induction before as [|k0 ks IH]; intros c; simpl; [reflexivity|].
  destruct (faulty env (OpMatch DATA_CACHE_NAME k0)); [reflexivity|].
  destruct (cache_lookup k0 c) as [r0|]; [|reflexivity].
  destruct (expired cutoff r0); [|apply IH].
  destruct (faulty env (OpDelete DATA_CACHE_NAME k0)); [reflexivity | apply IH].
Qed.

End Sweep.

(** what a run of [cleanup] is, once the cache is opened and enumerated *)
Lemma cleanup_sweeps (env : Env) (w : World) :
  faulty env (OpOpen DATA_CACHE_NAME) = false ->
  faulty env (OpKeys DATA_CACHE_NAME) = false ->
  cleanup env w =
  (Returned tt,
   with_console
     (fun l => l ++ [match fst (sweep env (now env - 60 * 60 * 1000)
                                  (cache_requests (data_cache w)) (data_cache w)) with
                     | Returned _ => (Log, "[SW] Cache cleanup completed")
                     | Thrown _ => (Error, "[SW] Cache cleanup failed:")
                     end])
     (with_caches
        (fun cs => storage_update DATA_CACHE_NAME
                     (fun _ => snd (sweep env (now env - 60 * 60 * 1000)
                                      (cache_requests (data_cache w)) (data_cache w)))
                     (storage_open DATA_CACHE_NAME cs)) w)).
Proof.
  intros Hopen Hkeys.
  unfold cleanup, try_catch. unfold bind at 1. unfold caches_open, storage_op.
  rewrite Hopen. unfold bind at 1. unfold cache_keys, storage_op. rewrite Hkeys.
  unfold bind at 1.
  rewrite (sweep_loop env _ _ _ (storage_get DATA_CACHE_NAME (caches w)))
    by (simpl; apply assoc_storage_open).
  simpl caches. rewrite storage_get_open. fold (data_cache w).
  destruct (sweep env (now env - 60 * 60 * 1000)
              (cache_requests (data_cache w)) (data_cache w)) as [[[]|e] c']; reflexivity.
Qed.

(** the cleanup callback never throws *)
Lemma cleanup_returns (env : Env) (w : World) :
  exists w', cleanup env w = (Returned tt, w').
Proof.
  unfold cleanup, try_catch.
  match goal with |- context [match ?m w with _ => _ end] => destruct (m w) as [[[]|e] w1] end.
  - now exists w1.
  - unfold console_error. eexists. reflexivity.
Qed.

Lemma data_cache_after_cleanup (env : Env) (w : World) :
  faulty env (OpOpen DATA_CACHE_NAME) = false ->
  faulty env (OpKeys DATA_CACHE_NAME) = false ->
  data_cache (snd (cleanup env w)) =
  snd (sweep env (now env - 60 * 60 * 1000) (cache_requests (data_cache w)) (data_cache w)).
Proof.
  intros Hopen Hkeys. rewrite (cleanup_sweeps env w Hopen Hkeys).
  unfold data_cache. simpl.
  now rewrite storage_get_update, assoc_storage_open.
Qed.

Lemma caches_after_cleanup (env : Env) (w : World) :
  faulty env (OpOpen DATA_CACHE_NAME) = false ->
  faulty env (OpKeys DATA_CACHE_NAME) = false ->
  caches (snd (cleanup env w)) =
  storage_update DATA_CACHE_NAME
    (fun _ => snd (sweep env (now env - 60 * 60 * 1000)
                     (cache_requests (data_cache w)) (data_cache w)))
    (storage_open DATA_CACHE_NAME (caches w)).
Proof. intros Hopen Hkeys. now rewrite (cleanup_sweeps env w Hopen Hkeys). Qed.

(** an entry that is not expired outlives a run of [cleanup], whatever
    faults during the run *)
Lemma cleanup_keeps (env : Env) (w : World) (k : string) (r : Response) :
  cache_lookup k (data_cache w) = Some r ->
  expired (now env - 60 * 60 * 1000) r = false ->
  cache_lookup k (data_cache (snd (cleanup env w))) = Some r.
Proof.
  intros Hk Hfresh.
  destruct (faulty env (OpOpen DATA_CACHE_NAME)) eqn:Hopen.
  { unfold cleanup, try_catch, bind, caches_open, storage_op. rewrite Hopen.
    simpl. exact Hk. }
  destruct (faulty env (OpKeys DATA_CACHE_NAME)) eqn:Hkeys.
  { unfold cleanup, try_catch, bind, caches_open, cache_keys, storage_op.
    rewrite Hopen, Hkeys. unfold data_cache. simpl.
    rewrite storage_get_open. exact Hk. }
  rewrite (data_cache_after_cleanup env w Hopen Hkeys).
  now apply sweep_keeps.
Qed.

(** C4: with the storage working and the data cache holding each request
    once, a run of the cleanup deletes every entry whose stored capture
    time [t] satisfies [now - t > 3600 s], keeps every entry stamped
    younger (the boundary included), and a second run at the same instant
    leaves all caches as the first run left them. *)
Theorem cleanup_evicts_by_age (env : Env) (w : World) :
  healthy env ->
  NoDup (cache_requests (data_cache w)) ->
  exists w1,
    cleanup env w = (Returned tt, w1) /\
    (forall k r t,
        cache_lookup k (data_cache w) = Some r ->
        capture_timestamp r = Some t ->
        (now env - t > 3600 * 1000 -> cache_lookup k (data_cache w1) = None) /\
        (now env - t <= 3600 * 1000 -> cache_lookup k (data_cache w1) = Some r)) /\
    (forall env2,
        healthy env2 -> now env2 = now env ->
        caches (snd (cleanup env2 w1)) = caches w1).
Proof.
  intros Hhealthy Hnd.
  destruct (cleanup_returns env w) as [w1 Hrun].
  assert (Hw1 : w1 = snd (cleanup env w)) by now rewrite Hrun.
  exists w1. split; [exact Hrun|].
  set (cutoff := now env - 60 * 60 * 1000).
  set (c := data_cache w) in *.
  assert (Hc1 : data_cache w1 = snd (sweep env cutoff (cache_requests c) c)).
  { rewrite Hw1. apply data_cache_after_cleanup; apply Hhealthy. }
  assert (Hend : fst (sweep env cutoff (cache_requests c) c) = Returned tt).
  { apply sweep_completes; [| exact Hnd | intros k; apply lookup_in_requests].
    intros k _. split; apply Hhealthy. }
  split.
  - intros k r t Hk Ht. split; intros Hage.
    + rewrite Hc1. apply (sweep_evicts env cutoff _ c k r Hend).
      * now apply (requests_of_lookup k c r).
      * exact Hk.
      * rewrite expired_capture, Ht. apply Z.ltb_lt. unfold cutoff. lia.
    + rewrite Hw1. apply cleanup_keeps; [exact Hk|].
      rewrite expired_capture, Ht. apply Z.ltb_ge. lia.
  - intros env2 Hhealthy2 Hnow.
    rewrite (caches_after_cleanup env2 w1) by apply Hhealthy2.
    assert (Hpresent : assoc DATA_CACHE_NAME (caches w1) = Some (data_cache w1)).
    { rewrite Hw1 at 1. rewrite (caches_after_cleanup env w) by apply Hhealthy.
      rewrite assoc_storage_update, assoc_storage_open. simpl.
      now rewrite Hc1. }
    rewrite (storage_open_present _ _ _ Hpresent).
    apply storage_update_same.
    rewrite (storage_get_present _ _ _ Hpresent).
    fold (data_cache w1). rewrite Hnow. fold cutoff.
    rewrite sweep_nothing_to_do; [reflexivity | intros k _; apply Hhealthy2 |].
    intros k Hin.
    destruct (lookup_in_requests k _ Hin) as [r Hr]. exists r. split; [exact Hr|].
    assert (Hk : cache_lookup k c = Some r).
    { rewrite Hc1 in Hr.
      destruct (sweep_only_removes env cutoff (cache_requests c) c k) as [H|H];
        congruence. }
    destruct (expired cutoff r) eqn:Ex; [|reflexivity].
    rewrite Hc1 in Hr.
    rewrite (sweep_evicts env cutoff _ c k r Hend (requests_of_lookup k c r Hk) Hk Ex) in Hr.
    discriminate.
Qed.

Lemma healthy_offline : healthy Sample.offline.
Proof. intros op. reflexivity. Defined.

Lemma two_quotes_distinct : NoDup (cache_requests (data_cache Sample.two_quotes)).
Proof.
  repeat constructor; simpl; intuition discriminate.
Defined.

Lemma cleanup_evicts_by_age_witness :
  healthy Sample.offline /\
  NoDup (cache_requests (data_cache Sample.two_quotes)) /\
  exists w1,
    cleanup Sample.offline Sample.two_quotes = (Returned tt, w1) /\
    (forall k r t,
        cache_lookup k (data_cache Sample.two_quotes) = Some r ->
        capture_timestamp r = Some t ->
        (now Sample.offline - t > 3600 * 1000 -> cache_lookup k (data_cache w1) = None) /\
        (now Sample.offline - t <= 3600 * 1000 -> cache_lookup k (data_cache w1) = Some r)) /\
    (forall env2,
        healthy env2 -> now env2 = now Sample.offline ->
        caches (snd (cleanup env2 w1)) = caches w1).
Proof.
  split; [exact healthy_offline | split; [exact two_quotes_distinct|]].
  exact (cleanup_evicts_by_age Sample.offline Sample.two_quotes
           healthy_offline two_quotes_distinct).
Defined.

(** the example of the specification: at TTL = 3600 s the entry captured
    3601 s ago is removed and the one captured 3599 s ago is retained *)
Example cleanup_at_the_boundary :
  capture_timestamp Sample.old_entry = Some (Sample.clock - 3601 * 1000) /\
  capture_timestamp Sample.young_entry = Some (Sample.clock - 3599 * 1000) /\
  data_cache (snd (cleanup Sample.offline Sample.two_quotes)) =
  [ ("/quote/young", Sample.young_entry) ].
Proof. repeat split. Qed.

(** C3, as the code has it: the cleanup callback never throws, whatever
    faults; but a fault while reading or deleting one entry ends the sweep
    there.  The fault is logged once, the entries enumerated before the
    faulting one have been evicted as usual, and the faulting entry and
    every entry enumerated after it are left as they were. *)
Theorem cleanup_stops_at_first_fault (env : Env) (w : World) :
  (exists w1, cleanup env w = (Returned tt, w1)) /\
  forall (before rest : list string) (k : string),
    faulty env (OpOpen DATA_CACHE_NAME) = false ->
    faulty env (OpKeys DATA_CACHE_NAME) = false ->
    cache_requests (data_cache w) = before ++ k :: rest ->
    NoDup (cache_requests (data_cache w)) ->
    (forall k', In k' before ->
       faulty env (OpMatch DATA_CACHE_NAME k') = false /\
       faulty env (OpDelete DATA_CACHE_NAME k') = false) ->
    (faulty env (OpMatch DATA_CACHE_NAME k) = true \/
     exists r, cache_lookup k (data_cache w) = Some r /\
               expired (now env - 60 * 60 * 1000) r = true /\
               faulty env (OpDelete DATA_CACHE_NAME k) = true) ->
    console (snd (cleanup env w)) = console w ++ [(Error, "[SW] Cache cleanup failed:")] /\
    (forall k' r,
        In k' before ->
        cache_lookup k' (data_cache w) = Some r ->
        expired (now env - 60 * 60 * 1000) r = true ->
        cache_lookup k' (data_cache (snd (cleanup env w))) = None) /\
    (forall k',
        In k' (k :: rest) ->
        cache_lookup k' (data_cache (snd (cleanup env w))) =
        cache_lookup k' (data_cache w)) /\
    (forall k' r,
        cache_lookup k' (data_cache w) = Some r ->
        expired (now env - 60 * 60 * 1000) r = false ->
        cache_lookup k' (data_cache (snd (cleanup env w))) = Some r).
Proof.
  split; [apply cleanup_returns|].
  intros before rest k Hopen Hkeys Hreqs Hnd Hbefore Hfault.
  set (cutoff := now env - 60 * 60 * 1000) in *.
  set (c := data_cache w) in *.
  assert (Hnd' : NoDup before /\ forall k', In k' (k :: rest) -> ~ In k' before).
  { rewrite Hreqs in Hnd. clear - Hnd. induction before as [|b before IH]; simpl in *.
    - split; [constructor | intros k' _ []].
    - inversion Hnd as [|? ? Hout Hnd']. subst. destruct (IH Hnd') as [IH1 IH2]. split.
      + constructor; [|exact IH1]. intros Hb. apply Hout, in_or_app. now left.
      + intros k' Hk' [<-|Hb]; [|now apply (IH2 k')].
        apply Hout, in_or_app. now right. }
  destruct Hnd' as [Hnd_before Hapart].
  assert (Hstored : forall k', In k' before -> exists r, cache_lookup k' c = Some r).
  { intros k' Hk'. apply lookup_in_requests. rewrite Hreqs. apply in_or_app. now left. }
  assert (Hend : fst (sweep env cutoff before c) = Returned tt)
    by now apply sweep_completes.
  assert (Hk : cache_lookup k (snd (sweep env cutoff before c)) = cache_lookup k c).
  { apply sweep_elsewhere. apply Hapart. now left. }
  assert (Hsweep : exists e, sweep env cutoff (cache_requests c) c =
                             (Thrown e, snd (sweep env cutoff before c))).
  { rewrite Hreqs, sweep_app.
    destruct (sweep env cutoff before c) as [[[]|e] c1]; [|discriminate].
    simpl in Hk |- *.
    destruct Hfault as [Hm | [r [Hr [Hold Hd]]]].
    - rewrite Hm. now exists StorageError.
    - destruct (faulty env (OpMatch DATA_CACHE_NAME k)); [now exists StorageError|].
      rewrite Hk, Hr, Hold, Hd. now exists StorageError. }
  destruct Hsweep as [e Hsweep].
  assert (Hfresh : forall k' r,
             cache_lookup k' c = Some r -> expired cutoff r = false ->
             cache_lookup k' (data_cache (snd (cleanup env w))) = Some r)
    by (intros k' r; apply cleanup_keeps).
  revert Hfresh.
  rewrite (data_cache_after_cleanup env w Hopen Hkeys).
  rewrite (cleanup_sweeps env w Hopen Hkeys).
  fold c cutoff. rewrite Hsweep. simpl. intros Hfresh.
  split; [reflexivity|]. split; [|split].
  - intros k' r Hk' Hr Hold. now apply (sweep_evicts env cutoff before c k' r).
  - intros k' Hk'. apply sweep_elsewhere. now apply Hapart.
  - exact Hfresh.
Qed.

Lemma two_old_quotes_distinct :
  NoDup (cache_requests (data_cache Sample.two_old_quotes)).
Proof. repeat constructor; simpl; intuition discriminate. Defined.

Lemma cleanup_stops_at_first_fault_witness :
  (exists w1, cleanup Sample.flaky_storage Sample.two_old_quotes = (Returned tt, w1)) /\
  console (snd (cleanup Sample.flaky_storage Sample.two_old_quotes)) =
    [(Error, "[SW] Cache cleanup failed:")] /\
  (forall k',
      In k' ["/quote/a"; "/quote/b"] ->
      cache_lookup k' (data_cache (snd (cleanup Sample.flaky_storage Sample.two_old_quotes))) =
      cache_lookup k' (data_cache Sample.two_old_quotes)).
Proof.
  destruct (cleanup_stops_at_first_fault Sample.flaky_storage Sample.two_old_quotes)
    as [Hreturns Hstops].
  split; [exact Hreturns|].
  destruct (Hstops [] ["/quote/b"] "/quote/a" eq_refl eq_refl eq_refl
              two_old_quotes_distinct
              (fun k' (H : In k' []) => match H with end)
              (or_introl eq_refl)) as [Hlog [_ [Hrest _]]].
  split; [exact Hlog | exact Hrest].
Defined.

(** C3, as stated, fails: the entry [/quote/b] is expired and neither
    reading nor deleting it faults, yet the sweep that faulted on
    [/quote/a] leaves it in the cache (a sweep without the fault removes
    it). *)
Lemma cleanup_abandons_remaining_entries :
  faulty Sample.flaky_storage (OpMatch DATA_CACHE_NAME "/quote/b") = false /\
  faulty Sample.flaky_storage (OpDelete DATA_CACHE_NAME "/quote/b") = false /\
  expired (Sample.clock - 60 * 60 * 1000) Sample.old_entry = true /\
  cache_lookup "/quote/b"
    (data_cache (snd (cleanup Sample.flaky_storage Sample.two_old_quotes))) =
    Some Sample.old_entry /\
  cache_lookup "/quote/b"
    (data_cache (snd (cleanup Sample.offline Sample.two_old_quotes))) = None.
Proof. repeat split. Qed.

(** ** What the worker writes into the data cache, and what outlives the cleanup *)

Lemma cacheAnalysisData_writes (env : Env) (data address : jsval) (w : World) :
  prop "contractAddress" data = Some address ->
  faulty env (OpOpen DATA_CACHE_NAME) = false ->
  faulty env (OpPut DATA_CACHE_NAME ("/analysis/" ++ ToString address)%string) = false ->
  cacheAnalysisData env data w =
  (Returned tt,
   with_console (fun l => l ++ [(Log, "[SW] Analysis data cached:")])
     (with_caches
        (fun cs => storage_update DATA_CACHE_NAME
                     (cache_store ("/analysis/" ++ ToString address)%string
                        (mkResponse 200 "" [("content-type", "application/json")]
                                    (BodyJSON data)))
                     (storage_open DATA_CACHE_NAME cs)) w)).
Proof.
  intros Haddr Hopen Hput.
  unfold cacheAnalysisData, try_catch, bind, caches_open, cache_put, storage_op,
    defined, ret.
  rewrite Hopen, Haddr. cbv beta iota. rewrite Hput. reflexivity.
Qed.

Lemma expired_is_stamped (cutoff : Z) (r : Response) :
  expired cutoff r = true ->
  exists ts t,
    headers_get "X-Cache-Timestamp" (headers r) = Some ts /\
    ts <> "" /\ parseInt ts = Some t /\ t < cutoff.
Proof.
  unfold expired.
  destruct (headers_get "X-Cache-Timestamp" (headers r)) as [ts|]; [|discriminate].
  destruct (String.eqb ts "") eqn:E; simpl; [discriminate|].
  destruct (parseInt ts) as [t|] eqn:Et; [|discriminate].
  intros H. exists ts, t.
  split; [reflexivity|]. split; [|split; [exact Et | now apply Z.ltb_lt]].
  intros ->. discriminate.
Qed.

Lemma unstamped_not_expired (cutoff : Z) (r : Response) :
  headers_get "X-Cache-Timestamp" (headers r) = None -> expired cutoff r = false.
Proof. unfold expired. now intros ->. Qed.

(** C10, as the code has it: the worker adds no capture time to what it
    writes.  The entry of a CACHE_ANALYSIS message has no
    [X-Cache-Timestamp] header; the entry of the api write-through is the
    network response, with the headers the server sent.  A run of the
    cleanup deletes an entry only when that header is present, not empty,
    numeric and older than the cutoff.  So an entry without the header is
    kept by every run of the cleanup, however many runs, whatever faults. *)
Theorem worker_adds_no_capture_time :
  (forall env data address w,
      prop "contractAddress" data = Some address ->
      faulty env (OpOpen DATA_CACHE_NAME) = false ->
      faulty env (OpPut DATA_CACHE_NAME ("/analysis/" ++ ToString address)%string) = false ->
      exists stored,
        cache_lookup ("/analysis/" ++ ToString address)%string
          (data_cache (snd (cacheAnalysisData env data w))) = Some stored /\
        headers_get "X-Cache-Timestamp" (headers stored) = None) /\
  (forall env request w r,
      net env (mkNetCall (method request) (url request) None) = NetResp r ->
      ok r = true ->
      faulty env (OpOpen DATA_CACHE_NAME) = false ->
      faulty env (OpPut DATA_CACHE_NAME (url request)) = false ->
      cache_lookup (url request)
        (data_cache (snd (handleAPIRequest env request w))) = Some r) /\
  (forall env w k r,
      cache_lookup k (data_cache w) = Some r ->
      cache_lookup k (data_cache (snd (cleanup env w))) = Some r \/
      exists ts t,
        headers_get "X-Cache-Timestamp" (headers r) = Some ts /\
        ts <> "" /\ parseInt ts = Some t /\ t < now env - 3600 * 1000) /\
  (forall w k r,
      cache_lookup k (data_cache w) = Some r ->
      headers_get "X-Cache-Timestamp" (headers r) = None ->
      forall envs,
        cache_lookup k
          (data_cache (fold_left (fun w' e => snd (cleanup e w')) envs w)) = Some r).
Proof.
  repeat split.
  - intros env data address w Haddr Hopen Hput.
    rewrite (cacheAnalysisData_writes env data address w Haddr Hopen Hput).
    eexists. split.
    + unfold data_cache. simpl.
      rewrite storage_get_update, assoc_storage_open. apply lookup_store_same.
    + reflexivity.
  - intros env request w r Hnet Hok Hopen Hput.
    rewrite (handleAPIRequest_online env request w r Hnet Hok Hopen Hput).
    unfold data_cache. simpl.
    rewrite storage_get_update, assoc_storage_open. apply lookup_store_same.
  - intros env w k r Hk.
    destruct (expired (now env - 60 * 60 * 1000) r) eqn:Ex.
    + right. destruct (expired_is_stamped _ _ Ex) as [ts [t [H1 [H2 [H3 H4]]]]].
      exists ts, t. repeat split; auto.
    + left. now apply cleanup_keeps.
  - intros w k r Hk Hbare envs. revert w Hk.
    induction envs as [|e envs IH]; intros w Hk; simpl; [exact Hk|].
    apply IH. apply cleanup_keeps; [exact Hk|]. now apply unstamped_not_expired.
Qed.

Lemma worker_adds_no_capture_time_witness :
  (exists stored,
      cache_lookup "/analysis/0xabc"
        (data_cache (snd (cacheAnalysisData Sample.offline Sample.outcome_report empty_world)))
        = Some stored /\
      headers_get "X-Cache-Timestamp" (headers stored) = None) /\
  cache_lookup (url Sample.ping)
    (data_cache (snd (handleAPIRequest (Sample.online Sample.price) Sample.ping empty_world)))
    = Some Sample.price /\
  cache_lookup "/prices"
    (data_cache (fold_left (fun w' e => snd (cleanup e w'))
                   [Sample.offline; Sample.flaky_storage; Sample.offline]
                   (Sample.world_with_data [("/prices", Sample.price)])))
    = Some Sample.price.
Proof.
  destruct worker_adds_no_capture_time as [Hdirect [Hthrough [_ Hforever]]].
  split; [| split].
  - exact (Hdirect Sample.offline Sample.outcome_report (VStr "0xabc") empty_world
             eq_refl eq_refl eq_refl).
  - exact (Hthrough (Sample.online Sample.price) Sample.ping empty_world Sample.price
             eq_refl eq_refl eq_refl eq_refl).
  - exact (Hforever (Sample.world_with_data [("/prices", Sample.price)])
             "/prices" Sample.price eq_refl eq_refl
             [Sample.offline; Sample.flaky_storage; Sample.offline]).
Defined.

(** C10, as stated, fails: when the server itself sends the header, the
    entry the write-through stores carries it, and the next cleanup
    deletes the entry. *)
Lemma stamped_answer_is_evicted :
  exists stored,
    cache_lookup (url Sample.ping)
      (data_cache (snd (handleAPIRequest Sample.stamped_answer Sample.ping empty_world)))
      = Some stored /\
    headers_get "X-Cache-Timestamp" (headers stored) = Some "1" /\
    cache_lookup (url Sample.ping)
      (data_cache
         (snd (cleanup Sample.offline
                 (snd (handleAPIRequest Sample.stamped_answer Sample.ping empty_world)))))
      = None.
Proof. eexists. repeat split. Qed.

(** ** Replay of the pending records *)

Lemma assoc_set_same {A : Type} (k : string) (v : A) (l : list (string * A)) :
  assoc k (assoc_set k v l) = Some v.
Proof.
  induction l as [|[k' v'] l IH]; simpl.
  - now rewrite String.eqb_refl.
  - destruct (String.eqb k k') eqn:E; simpl.
    + now rewrite String.eqb_refl.
    + now rewrite E.
Qed.

(** the loop of [syncTokenOutcomes] always reaches its end and does not
    touch the stored lists *)
Lemma outcome_loop_returns (env : Env) (outcomes : list jsval) :
  forall w,
    exists w',
      for_of outcomes
        (fun outcome =>
           try_catch
             (bind (fetch env (post "/api/sync/outcomes" outcome)) (fun _ =>
              bind (defined (prop "contractAddress" outcome)) (fun _ =>
              console_log "[SW] Outcome synced:")))
             (fun _ => console_error "[SW] Failed to sync outcome:")) w =
      (Returned tt, w') /\
      localStorage w' = localStorage w.
Proof.
  induction outcomes as [|o os IH]; intros w.
  - exists w. now split.
  - cbn [for_of]. set (loop := for_of os _) in *.
    unfold bind, try_catch, fetch, defined, console_log, console_error, throw, ret.
    destruct (net env (post "/api/sync/outcomes" o));
      [| destruct (prop "contractAddress" o)];
      match goal with |- context [loop ?w1] => destruct (IH w1) as [w' [Hrun Hsame]] end;
      exists w'; (split; [exact Hrun | rewrite Hsame; reflexivity]).
Qed.

(** C1 on the code: whatever the endpoint answers to each POST, and so
    also when every POST is rejected, the replay of the outcomes never
    throws and ends by storing the empty list: no record is left in the
    persisted pending list, the records whose POST failed included. *)
Theorem syncTokenOutcomes_clears_all (env : Env) (w : World) :
  faulty env (OpGetItem "pendingOutcomes") = false ->
  faulty env (OpSetItem "pendingOutcomes") = false ->
  exists w',
    syncTokenOutcomes env w = (Returned tt, w') /\
    assoc "pendingOutcomes" (localStorage w') = Some [].
Proof.
  intros Hget Hset.
  unfold syncTokenOutcomes. unfold try_catch at 1.
  unfold bind at 1. unfold console_log at 1.
  unfold bind at 1. unfold localStorage_getItem, storage_op. rewrite Hget.
  unfold bind at 1. cbv beta iota.
  match goal with
  | |- context [for_of ?l _ ?w0] => destruct (outcome_loop_returns env l w0) as [w' [Hrun Hsame]]
  end.
  rewrite Hrun. unfold localStorage_setItem, storage_op. rewrite Hset.
  eexists. split; [reflexivity|]. simpl.
  apply assoc_set_same.
Qed.

Lemma syncTokenOutcomes_clears_all_witness :
  net Sample.offline (post "/api/sync/outcomes" Sample.outcome_report) = NetFail /\
  assoc "pendingOutcomes"
    (localStorage (Sample.world_with_pending [Sample.outcome_report])) =
    Some [Sample.outcome_report] /\
  exists w',
    syncTokenOutcomes Sample.offline
      (Sample.world_with_pending [Sample.outcome_report]) = (Returned tt, w') /\
    assoc "pendingOutcomes" (localStorage w') = Some [].
Proof.
  split; [reflexivity | split; [reflexivity|]].
  exact (syncTokenOutcomes_clears_all Sample.offline
           (Sample.world_with_pending [Sample.outcome_report]) eq_refl eq_refl).
Defined.

(** the run at a failing endpoint: one unsynced outcome is pending, its
    POST is rejected, the failure is logged, and the record is gone *)
Example syncTokenOutcomes_drops_failed_record :
  console (snd (syncTokenOutcomes Sample.offline
                  (Sample.world_with_pending [Sample.outcome_report]))) =
    [ (Log, "[SW] Syncing token outcomes..."); (Error, "[SW] Failed to sync outcome:") ] /\
  network (snd (syncTokenOutcomes Sample.offline
                  (Sample.world_with_pending [Sample.outcome_report]))) =
    [ post "/api/sync/outcomes" Sample.outcome_report ] /\
  assoc "pendingOutcomes"
    (localStorage (snd (syncTokenOutcomes Sample.offline
                          (Sample.world_with_pending [Sample.outcome_report])))) =
    Some [].
Proof. repeat split. Qed.

(** the sibling replay, of the analysis history, does what the claim says:
    a record whose POST is rejected stays in the stored list, unsynced, and
    a record whose POST is answered is marked synced *)
Example syncAnalysisData_keeps_failed_record :
  assoc "memeAnalysisHistory"
    (localStorage (snd (syncAnalysisData Sample.offline
                          (Sample.world_with_history [Sample.outcome_report])))) =
    Some [Sample.outcome_report] /\
  assoc "memeAnalysisHistory"
    (localStorage (snd (syncAnalysisData (Sample.online Sample.price)
                          (Sample.world_with_history [Sample.outcome_report])))) =
    Some [mark_synced Sample.outcome_report].
Proof. split; reflexivity. Qed.

(** ** Install *)

Lemma fetch_all_fails (env : Env) (urls : list string) :
  (exists u, In u urls /\
             match net env (get u) with
             | NetFail => True
             | NetResp r => ok r = false
             end) ->
  fetch_all env urls = None.
Proof.
  induction urls as [|u0 urls IH]; intros [u [Hin Hu]]; [destruct Hin|].
  simpl. destruct Hin as [<-|Hin].
  - destruct (net env (get u0)) as [|r]; [reflexivity | now rewrite Hu].
  - destruct (net env (get u0)) as [|r]; [reflexivity|].
    destruct (ok r); [|reflexivity].
    rewrite IH; [reflexivity | now exists u].
Qed.

(** C2, as the code has it: when the population of the static cache
    fails (an asset of the manifest cannot be fetched or is answered
    outside 200..299, or the cache store rejects), no asset is stored (the
    static cache holds what it held), [skipWaiting] is not called and the
    failure is logged; but the failure being caught, the promise of the
    install listener fulfils and the worker is installed, not discarded. *)
Theorem install_swallows_population_failure (env : Env) (w : World) :
  (exists u, In u STATIC_CACHE_URLS /\
             match net env (get u) with
             | NetFail => True
             | NetResp r => ok r = false
             end) \/
  faulty env (OpOpen CACHE_NAME) = true \/
  faulty env (OpAddAll CACHE_NAME) = true ->
  exists w',
    install env w = (Installed, w') /\
    static_cache w' = static_cache w /\
    skipWaiting_calls w' = skipWaiting_calls w /\
    exists earlier,
      console w' = earlier ++ [(Error, "[SW] Failed to cache static assets:")].
Proof.
  intros Hfail.
  unfold install, install_listener, try_catch, bind, console_log, console_error,
    caches_open, cache_addAll, storage_op, throw.
  destruct (faulty env (OpOpen CACHE_NAME)) eqn:Hopen.
  { eexists. split; [reflexivity|]. simpl. repeat split. eexists. reflexivity. }
  destruct (faulty env (OpAddAll CACHE_NAME)) eqn:Hadd.
  { eexists. split; [reflexivity|]. unfold static_cache. simpl.
    rewrite storage_get_open. repeat split. eexists. reflexivity. }
  destruct Hfail as [Hfetch | [Hf | Hf]]; try discriminate.
  rewrite (fetch_all_fails env _ Hfetch).
  eexists. split; [reflexivity|]. unfold static_cache. simpl.
  rewrite storage_get_open. repeat split. eexists. reflexivity.
Qed.

Lemma install_swallows_population_failure_witness :
  exists w',
    install Sample.manifest_missing empty_world = (Installed, w') /\
    static_cache w' = static_cache empty_world /\
    skipWaiting_calls w' = skipWaiting_calls empty_world /\
    exists earlier,
      console w' = earlier ++ [(Error, "[SW] Failed to cache static assets:")].
Proof.
  apply (install_swallows_population_failure Sample.manifest_missing empty_world).
  left. exists "/manifest.json". split; [simpl; tauto | exact I].
Defined.

(** where every asset is fetched and stored, the static cache holds the
    whole manifest and [skipWaiting] is called *)
Example install_populates :
  install (Sample.online Sample.icon) empty_world =
  (Installed,
   mkWorld
     [ (CACHE_NAME, map (fun u => (u, Sample.icon)) STATIC_CACHE_URLS) ]
     []
     [ (Log, "[SW] Installing service worker...");
       (Log, "[SW] Caching static assets");
       (Log, "[SW] Static assets cached successfully") ]
     (map get STATIC_CACHE_URLS)
     1 [] [] []).
Proof. reflexivity. Qed.

(** C2, as stated, fails: with [/manifest.json] unreachable the
    population fails, and the install step succeeds all the same. *)
Lemma failed_population_still_installs :
  net Sample.manifest_missing (get "/manifest.json") = NetFail /\
  fetch_all Sample.manifest_missing STATIC_CACHE_URLS = None /\
  fst (install Sample.manifest_missing empty_world) = Installed /\
  fst (install Sample.manifest_missing empty_world) <> Redundant.
Proof. repeat split. discriminate. Qed.

(** ** Messages *)

Lemma floating_returns {A : Type} (m : Task A) (w : World) :
  exists w', floating m w = (Returned tt, w').
Proof.
  unfold floating. destruct (m w) as [[a|e] w1]; eexists; reflexivity.
Qed.

Lemma caught_and_logged_returns (m : Task unit) (msg : string) (w : World) :
  exists w', try_catch m (fun _ => console_error msg) w = (Returned tt, w').
Proof.
  unfold try_catch. destruct (m w) as [[[]|e] w1]; eexists; reflexivity.
Qed.

Lemma prop_of_object (k : string) (v : jsval) :
  v <> VUndefined -> v <> VNull -> exists x, prop k v = Some x.
Proof.
  intros Hu Hn. destruct v; simpl; try contradiction; try (eexists; reflexivity).
  destruct (assoc k fields); eexists; reflexivity.
Qed.

Lemma message_listener_dispatch (env : Env) (event_data : jsval)
      (ports : list string) (w : World) (action data : jsval) :
  prop "action" event_data = Some action ->
  prop "data" event_data = Some data ->
  message_listener env event_data ports w =
  (if is_action action "SKIP_WAITING" then floating (skipWaiting)
   else if is_action action "CACHE_ANALYSIS" then floating (cacheAnalysisData env data)
   else if is_action action "QUEUE_OUTCOME" then queueOutcomeSync env data
   else if is_action action "GET_CACHE_INFO" then
     floating (bind (getCacheInfo env) (fun info =>
               bind (defined (nth_error ports 0)) (fun port =>
               postMessage port info)))
   else console_log "[SW] Unknown message action:") w.
Proof.
  intros Haction Hdata.
  unfold message_listener. unfold bind at 1. rewrite Haction.
  unfold defined at 1. unfold ret at 1. cbv beta iota.
  unfold bind at 1. rewrite Hdata. reflexivity.
Qed.

(** C7, as the code has it: on a message whose data is neither
    [undefined] nor [null] the listener completes without throwing,
    whatever the action, the payload, the ports and the faults; and when
    the action is none of the four known tags (or is missing) the message
    is logged and nothing else changes. *)
Theorem message_listener_completes (env : Env) (event_data : jsval)
        (ports : list string) (w : World) :
  event_data <> VUndefined ->
  event_data <> VNull ->
  (exists w', message_listener env event_data ports w = (Returned tt, w')) /\
  (forall action,
      prop "action" event_data = Some action ->
      (forall name, In name known_actions -> is_action action name = false) ->
      message_listener env event_data ports w =
      (Returned tt,
       with_console (fun l => l ++ [(Log, "[SW] Unknown message action:")]) w)).
Proof.
  intros Hu Hn.
  destruct (prop_of_object "action" event_data Hu Hn) as [action Haction].
  destruct (prop_of_object "data" event_data Hu Hn) as [data Hdata].
  rewrite (message_listener_dispatch env event_data ports w action data Haction Hdata).
  split.
  - destruct (is_action action "SKIP_WAITING"); [apply floating_returns|].
    destruct (is_action action "CACHE_ANALYSIS"); [apply floating_returns|].
    destruct (is_action action "QUEUE_OUTCOME");
      [unfold queueOutcomeSync; apply caught_and_logged_returns|].
    destruct (is_action action "GET_CACHE_INFO"); [apply floating_returns|].
    eexists. reflexivity.
  - intros action' Heq Hunknown.
    assert (Hsame : action' = action) by congruence. subst action'.
    rewrite !Hunknown by (simpl; tauto). reflexivity.
Qed.

Lemma message_listener_completes_witness :
  (exists w',
      message_listener Sample.offline (VObj [("action", VStr "GET_CACHE_INFO")]) []
        empty_world = (Returned tt, w')) /\
  message_listener Sample.offline (VObj [("action", VStr "RESET")]) [] empty_world =
    (Returned tt,
     with_console (fun l => l ++ [(Log, "[SW] Unknown message action:")]) empty_world) /\
  message_listener Sample.offline (VObj []) [] empty_world =
    (Returned tt,
     with_console (fun l => l ++ [(Log, "[SW] Unknown message action:")]) empty_world).
Proof.
  assert (Hobj : forall fields, VObj fields <> VUndefined /\ VObj fields <> VNull)
    by (intros fields; split; discriminate).
  split; [| split].
  - exact (proj1 (message_listener_completes Sample.offline
                    (VObj [("action", VStr "GET_CACHE_INFO")]) [] empty_world
                    (proj1 (Hobj _)) (proj2 (Hobj _)))).
  - apply (proj2 (message_listener_completes Sample.offline
                    (VObj [("action", VStr "RESET")]) [] empty_world
                    (proj1 (Hobj _)) (proj2 (Hobj _))) (VStr "RESET") eq_refl).
    intros name Hname. simpl in Hname.
    destruct Hname as [<-|[<-|[<-|[<-|[]]]]]; reflexivity.
  - apply (proj2 (message_listener_completes Sample.offline
                    (VObj []) [] empty_world
                    (proj1 (Hobj _)) (proj2 (Hobj _))) VUndefined eq_refl).
    intros name _. reflexivity.
Defined.

(** C7, as stated, fails: a message whose data is [null] carries no
    action tag, and the listener throws on it instead of logging it. *)
Lemma null_message_throws :
  prop "action" VNull = None /\
  message_listener Sample.offline VNull [] empty_world = (Thrown TypeError, empty_world) /\
  console (snd (message_listener Sample.offline VNull [] empty_world)) = [].
Proof. repeat split. Qed.

(* ================================================================== *)
(** * Further properties of the handlers *)

(** ** Properties that tasks keep *)

Section Preservation.

Variable I : World -> Prop.

Lemma preserves_ret {A : Type} (a : A) : preserves I (ret a).
Proof. intros w Hw. exact Hw. Qed.

Lemma preserves_throw {A : Type} (e : JsError) : preserves I (@throw A e).
Proof. intros w Hw. exact Hw. Qed.

Lemma preserves_bind {A B : Type} (m : Task A) (k : A -> Task B) :
  preserves I m -> (forall a, preserves I (k a)) -> preserves I (bind m k).
Proof.
  intros Hm Hk w Hw. unfold bind. specialize (Hm w Hw).
  destruct (m w) as [[a|e] w1]; simpl in *; [now apply Hk | exact Hm].
Qed.

Lemma preserves_try_catch {A : Type} (m : Task A) (h : JsError -> Task A) :
  preserves I m -> (forall e, preserves I (h e)) -> preserves I (try_catch m h).
Proof.
  intros Hm Hh w Hw. unfold try_catch. specialize (Hm w Hw).
  destruct (m w) as [[a|e] w1]; simpl in *; [exact Hm | now apply Hh].
Qed.

Lemma preserves_for_of {A : Type} (xs : list A) (body : A -> Task unit) :
  (forall x, preserves I (body x)) -> preserves I (for_of xs body).
Proof.
  intros Hbody. induction xs as [|x xs IH]; simpl.
  - apply preserves_ret.
  - apply preserves_bind; [apply Hbody | intros _; exact IH].
Qed.

Lemma preserves_promise_all (tasks : list (Task unit)) :
  (forall task, In task tasks -> preserves I task) -> preserves I (promise_all tasks).
Proof.
  induction tasks as [|task rest IH]; intros Hall w Hw; simpl; [exact Hw|].
  assert (H1 : I (snd (task w))) by (apply Hall; [now left | exact Hw]).
  assert (Hrest : preserves I (promise_all rest))
    by (apply IH; intros t Ht; apply Hall; now right).
  destruct (task w) as [[[]|e] w1]; simpl in *; now apply Hrest.
Qed.

Lemma preserves_storage_op {A : Type} (env : Env) (op : StorageOp) (m : Task A) :
  preserves I m -> preserves I (storage_op env op m).
Proof.
  intros Hm. unfold storage_op. destruct (faulty env op); [apply preserves_throw | exact Hm].
Qed.

Hypothesis I_about_caches : about_caches I.

Lemma preserves_keeps {A : Type} (m : Task A) : keeps_caches m -> preserves I m.
Proof. intros Hm w Hw. apply (I_about_caches w); [apply Hm | exact Hw]. Qed.

Lemma preserves_floating {A : Type} (m : Task A) :
  preserves I m -> preserves I (floating m).
Proof.
  intros Hm w Hw. unfold floating. specialize (Hm w Hw).
  destruct (m w) as [[a|e] w1]; simpl in *; [exact Hm|].
  apply (I_about_caches w1); [reflexivity | exact Hm].
Qed.

End Preservation.

(** the platform calls that do not touch the caches *)

Lemma console_log_keeps (msg : string) : keeps_caches (console_log msg).
Proof. intros w. reflexivity. Qed.

Lemma console_error_keeps (msg : string) : keeps_caches (console_error msg).
Proof. intros w. reflexivity. Qed.

Lemma fetch_keeps (env : Env) (c : NetCall) : keeps_caches (fetch env c).
Proof. intros w. unfold fetch. now destruct (net env c). Qed.

Lemma caches_match_keeps (env : Env) (k : string) : keeps_caches (caches_match env k).
Proof. intros w. unfold caches_match, storage_op. now destruct (faulty env _). Qed.

Lemma caches_keys_keeps (env : Env) : keeps_caches (caches_keys env).
Proof. intros w. unfold caches_keys, storage_op. now destruct (faulty env _). Qed.

Lemma cache_keys_keeps (env : Env) (n : string) : keeps_caches (cache_keys env n).
Proof. intros w. unfold cache_keys, storage_op. now destruct (faulty env _). Qed.

Lemma cache_match_keeps (env : Env) (n k : string) : keeps_caches (cache_match env n k).
Proof. intros w. unfold cache_match, storage_op. now destruct (faulty env _). Qed.

Lemma getItem_keeps (env : Env) (k : string) : keeps_caches (localStorage_getItem env k).
Proof. intros w. unfold localStorage_getItem, storage_op. now destruct (faulty env _). Qed.

Lemma setItem_keeps (env : Env) (k : string) (l : list jsval) :
  keeps_caches (localStorage_setItem env k l).
Proof. intros w. unfold localStorage_setItem, storage_op. now destruct (faulty env _). Qed.

Lemma skipWaiting_keeps : keeps_caches skipWaiting.
Proof. intros w. reflexivity. Qed.

Lemma sync_register_keeps (tag : string) : keeps_caches (sync_register tag).
Proof. intros w. reflexivity. Qed.

Lemma postMessage_keeps (port : string) (info : jsval) : keeps_caches (postMessage port info).
Proof. intros w. reflexivity. Qed.

Lemma keeps_caches_ret {A : Type} (a : A) : keeps_caches (ret a).
Proof. intros w. reflexivity. Qed.

Lemma keeps_caches_throw {A : Type} (e : JsError) : keeps_caches (@throw A e).
Proof. intros w. reflexivity. Qed.

Lemma keeps_caches_defined {A : Type} (o : option A) : keeps_caches (defined o).
Proof. intros w. now destruct o. Qed.

Lemma keeps_caches_bind {A B : Type} (m : Task A) (k : A -> Task B) :
  keeps_caches m -> (forall a, keeps_caches (k a)) -> keeps_caches (bind m k).
Proof.
  intros Hm Hk w. unfold bind. specialize (Hm w).
  destruct (m w) as [[a|e] w1]; simpl in *; [now rewrite Hk | exact Hm].
Qed.

Lemma keeps_caches_try_catch {A : Type} (m : Task A) (h : JsError -> Task A) :
  keeps_caches m -> (forall e, keeps_caches (h e)) -> keeps_caches (try_catch m h).
Proof.
  intros Hm Hh w. unfold try_catch. specialize (Hm w).
  destruct (m w) as [[a|e] w1]; simpl in *; [exact Hm | now rewrite Hh].
Qed.

Lemma keeps_caches_floating {A : Type} (m : Task A) :
  keeps_caches m -> keeps_caches (floating m).
Proof.
  intros Hm w. unfold floating. specialize (Hm w).
  destruct (m w) as [[a|e] w1]; simpl in *; exact Hm.
Qed.

Lemma keeps_caches_for_of {A : Type} (xs : list A) (body : A -> Task unit) :
  (forall x, keeps_caches (body x)) -> keeps_caches (for_of xs body).
Proof.
  intros Hbody. induction xs as [|x xs IH]; simpl.
  - apply keeps_caches_ret.
  - apply keeps_caches_bind; [apply Hbody | intros _; exact IH].
Qed.

Create HintDb keeps discriminated.
#[local] Hint Resolve console_log_keeps console_error_keeps fetch_keeps
  caches_match_keeps caches_keys_keeps cache_keys_keeps cache_match_keeps
  getItem_keeps setItem_keeps skipWaiting_keeps sync_register_keeps
  postMessage_keeps keeps_caches_ret keeps_caches_throw keeps_caches_defined : keeps.

(** takes a task apart along its binds, handlers and branches *)
Ltac keeps_step :=
  first
    [ apply keeps_caches_bind; [|intros ?]
    | apply keeps_caches_try_catch; [|intros ?]
    | apply keeps_caches_floating
    | apply keeps_caches_for_of; intros ?
    | solve [auto with keeps]
    | match goal with
      | |- keeps_caches (if ?b then _ else _) => destruct b
      | |- keeps_caches (match ?x with _ => _ end) => destruct x
      end ].

Ltac keeps_all := repeat keeps_step.

Lemma syncTokenOutcomes_keeps (env : Env) : keeps_caches (syncTokenOutcomes env).
Proof. unfold syncTokenOutcomes. keeps_all. Qed.

Lemma unsynced_positions_keeps (items : list jsval) :
  forall i, keeps_caches (unsynced_positions i items).
Proof. induction items as [|item rest IH]; intros i; simpl; keeps_all. Qed.

Lemma sync_unsynced_keeps (env : Env) (positions : list nat) :
  forall history, keeps_caches (sync_unsynced env positions history).
Proof.
  induction positions as [|i rest IH]; intros history; simpl; keeps_all.
Qed.

#[local] Hint Resolve syncTokenOutcomes_keeps unsynced_positions_keeps
  sync_unsynced_keeps : keeps.

Lemma syncAnalysisData_keeps (env : Env) : keeps_caches (syncAnalysisData env).
Proof. unfold syncAnalysisData. keeps_all. Qed.

#[local] Hint Resolve syncAnalysisData_keeps : keeps.

Lemma sync_listener_keeps (env : Env) (tag : string) : keeps_caches (sync_listener env tag).
Proof. unfold sync_listener. keeps_all. Qed.

Lemma queueOutcomeSync_keeps (env : Env) (data : jsval) :
  keeps_caches (queueOutcomeSync env data).
Proof. unfold queueOutcomeSync. keeps_all. Qed.

#[local] Hint Resolve sync_listener_keeps queueOutcomeSync_keeps : keeps.

Lemma assoc_of_key {A : Type} (k : string) (l : list (string * A)) :
  In k (map fst l) -> exists v, assoc k l = Some v.
Proof.
  induction l as [|[k' v] l IH]; simpl; [intros []|].
  intros [<-|Hin].
  - exists v. now rewrite String.eqb_refl.
  - destruct (String.eqb k k'); [now exists v | now apply IH].
Qed.

(** sizing the caches that exist opens no new cache and changes none *)
Lemma cache_sizes_keeps (env : Env) (cacheNames : list string) :
  forall info w,
    (forall n, In n cacheNames -> In n (storage_keys (caches w))) ->
    caches (snd (cache_sizes env cacheNames info w)) = caches w.
Proof.
  induction cacheNames as [|n rest IH]; intros info w Hin; simpl; [reflexivity|].
  unfold bind, caches_open, cache_keys, storage_op.
  destruct (faulty env (OpOpen n)); [reflexivity|].
  destruct (assoc_of_key n (caches w) (Hin n (or_introl eq_refl))) as [c Hc].
  assert (Hsame : with_caches (storage_open n) w = w)
    by (apply with_caches_same; now apply (storage_open_present n (caches w) c)).
  rewrite Hsame.
  destruct (faulty env (OpKeys n)); [reflexivity|].
  apply IH. intros n' Hn'. apply Hin. now right.
Qed.

Lemma getCacheInfo_keeps (env : Env) : keeps_caches (getCacheInfo env).
Proof.
  intros w. unfold getCacheInfo, bind, caches_keys, storage_op.
  destruct (faulty env OpCachesKeys); [reflexivity|].
  match goal with
  | |- context [cache_sizes env ?names ?info w] =>
      pose proof (cache_sizes_keeps env names info w (fun n H => H)) as Hk;
      destruct (cache_sizes env names info w) as [[i|e] w1]
  end; exact Hk.
Qed.

#[local] Hint Resolve getCacheInfo_keeps : keeps.

(** ** Each cache holds a request once *)

Lemma requests_remove (k : string) (c : Cache) :
  cache_requests (cache_remove k c) =
  filter (fun k' => negb (String.eqb k k')) (cache_requests c).
Proof.
  unfold cache_requests, cache_remove.
  induction c as [|[k' r] c IH]; simpl; [reflexivity|].
  destruct (String.eqb k k'); simpl; now rewrite IH.
Qed.

Lemma cache_remove_nodup (k : string) (c : Cache) :
  NoDup (cache_requests c) -> NoDup (cache_requests (cache_remove k c)).
Proof. intros H. rewrite requests_remove. now apply NoDup_filter. Qed.

Lemma cache_store_nodup (k : string) (r : Response) (c : Cache) :
  NoDup (cache_requests c) -> NoDup (cache_requests (cache_store k r c)).
Proof.
  intros H. unfold cache_store, cache_requests. rewrite map_app. simpl.
  fold (cache_requests (cache_remove k c)).
  apply NoDup_app; [now apply cache_remove_nodup | repeat constructor; intros [] |].
  intros k' Hin [<-|[]].
  rewrite requests_remove in Hin. apply filter_In in Hin.
  destruct Hin as [_ Hne]. now rewrite String.eqb_refl in Hne.
Qed.

Lemma store_all_nodup (entries : list (string * Response)) :
  forall c, NoDup (cache_requests c) -> NoDup (cache_requests (store_all entries c)).
Proof.
  unfold store_all.
  induction entries as [|[k r] entries IH]; intros c H; simpl; [exact H|].
  apply IH. now apply cache_store_nodup.
Qed.

Lemma caches_wf_open (name : string) (cs : CacheStorage) :
  caches_wf cs -> caches_wf (storage_open name cs).
Proof.
  intros H. unfold storage_open. destruct (assoc name cs); [exact H|].
  intros n c Hin. apply in_app_or in Hin. destruct Hin as [Hin|[Heq|[]]].
  - now apply (H n c).
  - inversion Heq. constructor.
Qed.

Lemma caches_wf_update (name : string) (f : Cache -> Cache) (cs : CacheStorage) :
  (forall c, NoDup (cache_requests c) -> NoDup (cache_requests (f c))) ->
  caches_wf cs -> caches_wf (storage_update name f cs).
Proof.
  intros Hf. induction cs as [|[n c] cs IH]; intros H; simpl; [exact H|].
  assert (Htail : caches_wf cs) by (intros n' c' Hin; apply (H n' c'); now right).
  destruct (String.eqb name n).
  - intros n' c' [Heq|Hin]; [|now apply (Htail n' c')].
    injection Heq as <- <-. apply Hf. apply (H n c). now left.
  - intros n' c' [Heq|Hin]; [|now apply (IH Htail n' c')].
    injection Heq as <- <-. apply (H n c). now left.
Qed.

Lemma caches_wf_delete (name : string) (cs : CacheStorage) :
  caches_wf cs -> caches_wf (storage_delete name cs).
Proof.
  intros H n c Hin. unfold storage_delete in Hin. apply filter_In in Hin.
  now apply (H n c).
Qed.

Lemma world_wf_about_caches : about_caches world_wf.
Proof. intros w w' Heq. unfold world_wf. now rewrite Heq. Qed.

Lemma caches_open_wf (env : Env) (name : string) : preserves world_wf (caches_open env name).
Proof.
  apply preserves_storage_op. intros w Hw. now apply caches_wf_open.
Qed.

Lemma cache_put_wf (env : Env) (name k : string) (r : Response) :
  preserves world_wf (cache_put env name k r).
Proof.
  apply preserves_storage_op. intros w Hw.
  apply caches_wf_update; [apply cache_store_nodup | exact Hw].
Qed.

Lemma cache_delete_wf (env : Env) (name k : string) :
  preserves world_wf (cache_delete env name k).
Proof.
  apply preserves_storage_op. intros w Hw.
  apply caches_wf_update; [apply cache_remove_nodup | exact Hw].
Qed.

Lemma cache_addAll_wf (env : Env) (name : string) (urls : list string) :
  preserves world_wf (cache_addAll env name urls).
Proof.
  apply preserves_storage_op. intros w Hw.
  destruct (fetch_all env urls) as [entries|]; simpl.
  - apply caches_wf_update; [apply store_all_nodup | exact Hw].
  - exact Hw.
Qed.

Lemma caches_delete_wf (rejects : string -> bool) (name : string) :
  preserves world_wf (caches_delete rejects name).
Proof.
  intros w Hw. unfold caches_delete. destruct (rejects name); [exact Hw|].
  now apply caches_wf_delete.
Qed.

Create HintDb wf discriminated.
#[local] Hint Resolve caches_open_wf cache_put_wf cache_delete_wf cache_addAll_wf
  caches_delete_wf : wf.

(** takes a task apart, for a property [I] that only the caches decide;
    [about] proves that, [db] holds the steps that change the caches *)
Ltac preserves_step about :=
  first
    [ solve [auto with wf]
    | solve [apply preserves_keeps; [exact about | auto with keeps]]
    | apply preserves_bind; [|intros ?]
    | apply preserves_try_catch; [|intros ?]
    | apply preserves_floating; [exact about|]
    | apply preserves_for_of; intros ?
    | apply preserves_ret
    | apply preserves_throw
    | match goal with
      | |- preserves _ (if ?b then _ else _) => destruct b
      | |- preserves _ (match ?x with _ => _ end) => destruct x
      end ].





Lemma cacheAnalysisData_wf (env : Env) (data : jsval) :
  preserves world_wf (cacheAnalysisData env data).
Proof.
  unfold cacheAnalysisData. repeat preserves_step world_wf_about_caches.
Qed.


#[local] Hint Resolve cacheAnalysisData_wf : wf.







(** ** The worker creates no cache but its two *)

Lemma storage_keys_update (name : string) (f : Cache -> Cache) (cs : CacheStorage) :
  storage_keys (storage_update name f cs) = storage_keys cs.
Proof.
  unfold storage_keys. induction cs as [|[n c] cs IH]; simpl; [reflexivity|].
  destruct (String.eqb name n); simpl; [reflexivity | now rewrite IH].
Qed.

Lemma only_current_about_caches : about_caches only_current_caches.
Proof. intros w w' Heq. unfold only_current_caches. now rewrite Heq. Qed.

Lemma caches_open_current (env : Env) (name : string) :
  name = CACHE_NAME \/ name = DATA_CACHE_NAME ->
  preserves only_current_caches (caches_open env name).
Proof.
  intros Hname. apply preserves_storage_op. intros w Hw n Hin. simpl in Hin.
  unfold storage_open in Hin. destruct (assoc name (caches w)); [now apply Hw|].
  unfold storage_keys in Hin. rewrite map_app in Hin. apply in_app_or in Hin.
  destruct Hin as [Hin|[<-|[]]]; [now apply Hw | exact Hname].
Qed.

Lemma caches_open_static_current (env : Env) :
  preserves only_current_caches (caches_open env CACHE_NAME).
Proof. apply caches_open_current. now left. Qed.

Lemma caches_open_data_current (env : Env) :
  preserves only_current_caches (caches_open env DATA_CACHE_NAME).
Proof. apply caches_open_current. now right. Qed.

Lemma cache_put_current (env : Env) (name k : string) (r : Response) :
  preserves only_current_caches (cache_put env name k r).
Proof.
  apply preserves_storage_op. intros w Hw n Hin. simpl in Hin.
  rewrite storage_keys_update in Hin. now apply Hw.
Qed.

Lemma cache_delete_current (env : Env) (name k : string) :
  preserves only_current_caches (cache_delete env name k).
Proof.
  apply preserves_storage_op. intros w Hw n Hin. simpl in Hin.
  rewrite storage_keys_update in Hin. now apply Hw.
Qed.

Lemma cache_addAll_current (env : Env) (name : string) (urls : list string) :
  preserves only_current_caches (cache_addAll env name urls).
Proof.
  apply preserves_storage_op. intros w Hw n Hin.
  destruct (fetch_all env urls) as [entries|]; simpl in Hin.
  - rewrite storage_keys_update in Hin. now apply Hw.
  - now apply Hw.
Qed.

Lemma caches_delete_current (rejects : string -> bool) (name : string) :
  preserves only_current_caches (caches_delete rejects name).
Proof.
  intros w Hw n Hin. unfold caches_delete in Hin.
  destruct (rejects name); [now apply Hw|]. simpl in Hin.
  unfold storage_keys, storage_delete in Hin. apply in_map_iff in Hin.
  destruct Hin as [[n' c] [<- Hin]]. apply filter_In in Hin. destruct Hin as [Hin _].
  apply Hw. unfold storage_keys. apply in_map_iff. now exists (n', c).
Qed.

#[local] Hint Resolve caches_open_static_current caches_open_data_current
  cache_put_current cache_delete_current cache_addAll_current
  caches_delete_current : wf.

Lemma cacheAnalysisData_current (env : Env) (data : jsval) :
  preserves only_current_caches (cacheAnalysisData env data).
Proof.
  unfold cacheAnalysisData. repeat preserves_step only_current_about_caches.
Qed.

#[local] Hint Resolve cacheAnalysisData_current : wf.

Lemma react_current (env : Env) (e : Event) (w : World) :
  only_current_caches w -> only_current_caches (react env e w).
Proof.
  intros Hw. destruct e; simpl.
  - revert w Hw. change (preserves only_current_caches (install_listener env)).
    unfold install_listener. repeat preserves_step only_current_about_caches.
  - revert w Hw. change (preserves only_current_caches (activate_cleanup env rejects)).
    unfold activate_cleanup. repeat preserves_step only_current_about_caches.
    apply preserves_promise_all. intros task Hin.
    apply in_map_iff in Hin. destruct Hin as [n [<- _]].
    repeat preserves_step only_current_about_caches.
  - unfold fetch_listener.
    destruct (negb (String.eqb (method request) "GET")); [exact Hw|].
    revert w Hw.
    destruct (isAPIRequest (url request));
      [|destruct (isStaticAsset (url request))];
      match goal with
      | |- forall w, _ -> only_current_caches (snd (?m w)) =>
          change (preserves only_current_caches m)
      end;
      unfold handleAPIRequest, handleStaticRequest, handleDefaultRequest, fetch_request;
      repeat preserves_step only_current_about_caches.
  - apply (preserves_keeps only_current_caches only_current_about_caches);
      [apply sync_listener_keeps | exact Hw].
  - revert w Hw. change (preserves only_current_caches (message_listener env event_data ports)).
    unfold message_listener. repeat preserves_step only_current_about_caches.
  - revert w Hw. change (preserves only_current_caches (cleanup env)).
    unfold cleanup. repeat preserves_step only_current_about_caches.
Qed.

(** X2: whatever events reach the worker, it creates no cache other
    than the static and the data cache of its version: a world whose only
    caches are these two stays such a world. *)
Theorem run_creates_no_other_cache (events : list (Env * Event)) (w : World) :
  only_current_caches w -> only_current_caches (run events w).
Proof.
  revert w. unfold run.
  induction events as [|[env e] events IH]; intros w Hw; simpl; [exact Hw|].
  apply IH. now apply react_current.
Qed.

Lemma empty_world_current : only_current_caches empty_world.
Proof. intros name []. Defined.

Lemma run_creates_no_other_cache_witness :
  only_current_caches empty_world /\
  only_current_caches
    (run [ (Sample.online Sample.icon, Install);
           (Sample.online Sample.price, Fetch Sample.ping);
           (Sample.online Sample.icon, Fetch Sample.logo);
           (Sample.offline, Message (VObj [("action", VStr "GET_CACHE_INFO")]) ["reply"]);
           (Sample.offline, Tick) ]
         empty_world).
Proof.
  split; [exact empty_world_current|].
  apply run_creates_no_other_cache. exact empty_world_current.
Defined.

(** ** Activation *)

Lemma filter_twice {A : Type} (p q : A -> bool) (l : list A) :
  filter p (filter q l) = filter (fun x => q x && p x) l.
Proof.
  induction l as [|x l IH]; simpl; [reflexivity|].
  destruct (q x); simpl; [destruct (p x); now rewrite IH | exact IH].
Qed.

(** deleting, one after the other, the old caches whose deletion is not
    refused keeps the caches that are current or refused *)
Lemma delete_old_caches (rejects : string -> bool) (names : list string) :
  forall cs,
    fold_left
      (fun acc n => if is_old_cache n && negb (rejects n) then storage_delete n acc else acc)
      names cs =
    filter
      (fun nc => negb (existsb (fun n => String.eqb n (fst nc) &&
                                         (is_old_cache n && negb (rejects n))) names))
      cs.
Proof.
  induction names as [|n rest IH]; intros cs; simpl.
  - induction cs as [|x cs IHcs]; simpl; [reflexivity | now rewrite <- IHcs].
  - rewrite IH. destruct (is_old_cache n && negb (rejects n)) eqn:E.
    + unfold storage_delete. rewrite filter_twice. apply filter_ext. intros [n' c]. simpl.
      rewrite andb_true_r. now rewrite negb_orb.
    + apply filter_ext. intros [n' c]. simpl. now rewrite andb_false_r.
Qed.

Lemma existsb_at_key (P : string -> bool) (x : string) (l : list string) :
  In x l -> existsb (fun n => String.eqb n x && P n) l = P x.
Proof.
  intros Hin.
  destruct (P x) eqn:Hx.
  - apply existsb_exists. exists x. split; [exact Hin|].
    now rewrite String.eqb_refl, Hx.
  - apply existsb_none. intros n _.
    destruct (String.eqb n x) eqn:E; [|reflexivity].
    apply String.eqb_eq in E. subst. now rewrite Hx.
Qed.

Lemma promise_all_map {X : Type} (f : X -> Task unit) (o : X -> Outcome unit)
      (g : X -> World -> World) (xs : list X) :
  (forall x w, f x w = (o x, g x w)) ->
  forall w,
    promise_all (map f xs) w =
    (fold_right (fun x acc => match o x with Thrown e => Thrown e | Returned _ => acc end)
                (Returned tt) xs,
     fold_left (fun w' x => g x w') xs w).
Proof.
  intros Hf. induction xs as [|x xs IH]; intros w; simpl; [reflexivity|].
  rewrite Hf. destruct (o x) as [[]|e]; now rewrite IH.
Qed.

Lemma activate_listener_runs (env : Env) (rejects : string -> bool) (k : Worker) :
  faulty env OpCachesKeys = false ->
  exists w',
    activate_listener env rejects k =
    (if existsb (fun n => is_old_cache n && rejects n) (storage_keys (caches (world k)))
     then Thrown StorageError else Returned tt,
     mkWorker w'
       (if existsb (fun n => is_old_cache n && rejects n) (storage_keys (caches (world k)))
        then controls_clients k else true)) /\
    caches w' =
    filter (fun nc => negb (is_old_cache (fst nc)) || rejects (fst nc)) (caches (world k)).
Proof.
  intros Hkeys.
  unfold activate_listener, activate_cleanup.
  unfold bind at 1. unfold console_log at 1.
  unfold bind at 1. unfold caches_keys, storage_op. rewrite Hkeys.
  unfold bind at 1. cbv beta iota.
  set (w0 := with_console (fun l => l ++ [(Log, "[SW] Activating service worker...")])
                          (world k)).
  change (caches (world k)) with (caches w0).
  rewrite (promise_all_map _
             (fun n => if is_old_cache n && rejects n
                       then Thrown StorageError else Returned tt)
             (fun n w => if is_old_cache n
                         then if rejects n
                              then with_console
                                     (fun l => l ++ [(Log, "[SW] Deleting old cache:")]) w
                              else with_caches (storage_delete n)
                                     (with_console
                                        (fun l => l ++ [(Log, "[SW] Deleting old cache:")]) w)
                         else w)).
  2:{ intros n w. unfold bind, console_log, caches_delete, throw, ret.
      destruct (is_old_cache n); [destruct (rejects n)|]; reflexivity. }
  assert (Hcaches : forall names w,
            caches (fold_left
                      (fun w' n => if is_old_cache n
                                   then if rejects n
                                        then with_console
                                               (fun l => l ++ [(Log, "[SW] Deleting old cache:")]) w'
                                        else with_caches (storage_delete n)
                                               (with_console
                                                  (fun l => l ++ [(Log, "[SW] Deleting old cache:")]) w')
                                   else w') names w) =
            fold_left
              (fun acc n => if is_old_cache n && negb (rejects n)
                            then storage_delete n acc else acc)
              names (caches w)).
  { induction names as [|n rest IH]; intros w; simpl; [reflexivity|].
    rewrite IH. destruct (is_old_cache n); [destruct (rejects n)|]; reflexivity. }
  assert (Hout : forall names,
            fold_right
              (fun n acc => match (if is_old_cache n && rejects n
                                   then Thrown StorageError else Returned tt) with
                            | Thrown e => Thrown e
                            | Returned _ => acc
                            end) (Returned tt) names =
            if existsb (fun n => is_old_cache n && rejects n) names
            then Thrown StorageError else Returned tt).
  { induction names as [|n rest IH]; simpl; [reflexivity|].
    destruct (is_old_cache n && rejects n); simpl; [reflexivity | exact IH]. }
  rewrite Hout.
  assert (Hfilter :
    caches (fold_left
              (fun w' n => if is_old_cache n
                           then if rejects n
                                then with_console
                                       (fun l => l ++ [(Log, "[SW] Deleting old cache:")]) w'
                                else with_caches (storage_delete n)
                                       (with_console
                                          (fun l => l ++ [(Log, "[SW] Deleting old cache:")]) w')
                           else w') (storage_keys (caches w0)) w0) =
    filter (fun nc => negb (is_old_cache (fst nc)) || rejects (fst nc)) (caches w0)).
  { rewrite Hcaches, delete_old_caches. apply filter_ext_in. intros [n c] Hin.
    cbn beta. cbn [fst].
    rewrite (existsb_at_key (fun n0 => is_old_cache n0 && negb (rejects n0)) n
               (storage_keys (caches w0))).
    - destruct (is_old_cache n), (rejects n); reflexivity.
    - unfold storage_keys. apply in_map_iff. now exists (n, c). }
  destruct (existsb (fun n => is_old_cache n && rejects n) (storage_keys (caches w0))).
  - eexists. split; [reflexivity | exact Hfilter].
  - eexists. split; [reflexivity | exact Hfilter].
Qed.

(** X3: activation deletes every cache whose name is not one of the
    two current names, except those whose deletion the store refuses, and
    leaves the current caches and their entries as they are.  The worker
    takes control of the open pages only when no deletion was refused;
    otherwise the activation promise rejects, the other old caches being
    deleted all the same. *)
Theorem activate_deletes_old_caches (env : Env) (rejects : string -> bool) (k : Worker) :
  faulty env OpCachesKeys = false ->
  caches (world (snd (activate_listener env rejects k))) =
    filter (fun nc => negb (is_old_cache (fst nc)) || rejects (fst nc))
           (caches (world k)) /\
  (if existsb (fun n => is_old_cache n && rejects n) (storage_keys (caches (world k)))
   then fst (activate_listener env rejects k) = Thrown StorageError /\
        controls_clients (snd (activate_listener env rejects k)) = controls_clients k
   else fst (activate_listener env rejects k) = Returned tt /\
        controls_clients (snd (activate_listener env rejects k)) = true).
Proof.
  intros Hkeys.
  destruct (activate_listener_runs env rejects k Hkeys) as [w' [Hrun Hcaches]].
  rewrite Hrun. cbn [fst snd world controls_clients].
  split; [exact Hcaches|].
  destruct (existsb (fun n => is_old_cache n && rejects n)
              (storage_keys (caches (world k)))); split; reflexivity.
Qed.

Lemma activate_deletes_old_caches_witness :
  caches (world (snd (activate_listener Sample.offline (fun _ => false)
                        (mkWorker Sample.three_caches false)))) =
    [ (CACHE_NAME, [("/", Sample.icon)]); (DATA_CACHE_NAME, []) ] /\
  fst (activate_listener Sample.offline (fun _ => false)
         (mkWorker Sample.three_caches false)) = Returned tt /\
  controls_clients (snd (activate_listener Sample.offline (fun _ => false)
                           (mkWorker Sample.three_caches false))) = true.
Proof.
  exact (activate_deletes_old_caches Sample.offline (fun _ => false)
           (mkWorker Sample.three_caches false) eq_refl).
Defined.


(** ** Each handler writes into its own cache *)

Lemma storage_get_open_any (m n : string) (cs : CacheStorage) :
  storage_get m (storage_open n cs) = storage_get m cs.
Proof.
  unfold storage_open. destruct (assoc n cs) eqn:E; [reflexivity|].
  unfold storage_get. rewrite assoc_app. destruct (assoc m cs); [reflexivity|].
  simpl. destruct (String.eqb m n) eqn:Emn; [|reflexivity].
  apply String.eqb_eq in Emn. subst. reflexivity.
Qed.

Lemma storage_get_update_other (m n : string) (f : Cache -> Cache) (cs : CacheStorage) :
  m <> n -> storage_get m (storage_update n f cs) = storage_get m cs.
Proof.
  intros Hne. unfold storage_get.
  induction cs as [|[n' c] cs IH]; simpl; [reflexivity|].
  destruct (String.eqb n n') eqn:E; simpl.
  - apply String.eqb_eq in E. subst n'.
    destruct (String.eqb m n) eqn:E'; [apply String.eqb_eq in E'; contradiction | reflexivity].
  - destruct (String.eqb m n'); [reflexivity | exact IH].
Qed.

Section OtherCache.

Variable env : Env.
Variable m : string.
Variable c0 : Cache.

Lemma other_cache_about_caches : about_caches (fun w => storage_get m (caches w) = c0).
Proof. intros w w' Heq. now rewrite Heq. Qed.

Lemma caches_open_other (n : string) :
  preserves (fun w => storage_get m (caches w) = c0) (caches_open env n).
Proof.
  apply preserves_storage_op. intros w Hw. simpl. now rewrite storage_get_open_any.
Qed.

Lemma cache_put_other (n k : string) (r : Response) :
  m <> n -> preserves (fun w => storage_get m (caches w) = c0) (cache_put env n k r).
Proof.
  intros Hne. apply preserves_storage_op. intros w Hw. simpl.
  now rewrite storage_get_update_other.
Qed.

Lemma cache_delete_other (n k : string) :
  m <> n -> preserves (fun w => storage_get m (caches w) = c0) (cache_delete env n k).
Proof.
  intros Hne. apply preserves_storage_op. intros w Hw. simpl.
  now rewrite storage_get_update_other.
Qed.

Lemma cache_addAll_other (n : string) (urls : list string) :
  m <> n -> preserves (fun w => storage_get m (caches w) = c0) (cache_addAll env n urls).
Proof.
  intros Hne. apply preserves_storage_op. intros w Hw.
  destruct (fetch_all env urls); simpl; [now rewrite storage_get_update_other | exact Hw].
Qed.

End OtherCache.

(** [caches.open(n)] hands the cache [n] to what follows *)
Lemma preserves_open_then {B : Type} (I : World -> Prop) (env : Env) (n : string)
      (k : string -> Task B) :
  preserves I (caches_open env n) ->
  preserves I (k n) ->
  preserves I (bind (caches_open env n) k).
Proof.
  intros Hopen Hk w Hw. specialize (Hopen w Hw). revert Hopen.
  unfold bind, caches_open, storage_op.
  destruct (faulty env (OpOpen n)); simpl; [now intros _|].
  intros Hopen. now apply Hk.
Qed.

Lemma static_is_not_data : CACHE_NAME <> DATA_CACHE_NAME.
Proof. discriminate. Qed.

Lemma data_is_not_static : DATA_CACHE_NAME <> CACHE_NAME.
Proof. discriminate. Qed.

(** takes a task apart, for the content of the cache [m] *)
Ltac other_cache_step :=
  first
    [ solve [apply caches_open_other]
    | solve [apply cache_put_other; first [exact static_is_not_data | exact data_is_not_static]]
    | solve [apply cache_delete_other; first [exact static_is_not_data | exact data_is_not_static]]
    | solve [apply cache_addAll_other; first [exact static_is_not_data | exact data_is_not_static]]
    | solve [apply preserves_keeps; [apply other_cache_about_caches | auto with keeps]]
    | apply preserves_open_then
    | apply preserves_bind; [|intros ?]
    | apply preserves_try_catch; [|intros ?]
    | apply preserves_for_of; intros ?
    | apply preserves_ret
    | apply preserves_throw
    | match goal with
      | |- preserves _ (if ?b then _ else _) => destruct b
      | |- preserves _ (match ?x with _ => _ end) => destruct x
      end ].

Lemma handlers_keep_static (env : Env) (request : Request) (data : jsval) (c0 : Cache) :
  preserves (fun w => storage_get CACHE_NAME (caches w) = c0) (handleAPIRequest env request) /\
  preserves (fun w => storage_get CACHE_NAME (caches w) = c0) (cacheAnalysisData env data) /\
  preserves (fun w => storage_get CACHE_NAME (caches w) = c0) (cleanup env).
Proof.
  repeat split.
  - unfold handleAPIRequest, fetch_request. repeat other_cache_step.
  - unfold cacheAnalysisData. repeat other_cache_step.
  - unfold cleanup. repeat other_cache_step.
Qed.

Lemma handlers_keep_data (env : Env) (request : Request) (c0 : Cache) :
  preserves (fun w => storage_get DATA_CACHE_NAME (caches w) = c0)
            (handleStaticRequest env request) /\
  preserves (fun w => storage_get DATA_CACHE_NAME (caches w) = c0)
            (handleDefaultRequest env request) /\
  preserves (fun w => storage_get DATA_CACHE_NAME (caches w) = c0) (install_listener env).
Proof.
  repeat split.
  - unfold handleStaticRequest, fetch_request. repeat other_cache_step.
  - unfold handleDefaultRequest, fetch_request. repeat other_cache_step.
  - unfold install_listener. repeat other_cache_step.
Qed.

(** X4: the two caches are written by different handlers.  Whatever
    the network answers and whatever faults, the api handler, a
    CACHE_ANALYSIS write and the cleanup leave the static cache as it is,
    and the static handler, the default handler and the install leave the
    data cache as it is. *)
Theorem handlers_keep_to_their_cache (env : Env) (request : Request) (data : jsval)
        (w : World) :
  static_cache (snd (handleAPIRequest env request w)) = static_cache w /\
  static_cache (snd (cacheAnalysisData env data w)) = static_cache w /\
  static_cache (snd (cleanup env w)) = static_cache w /\
  data_cache (snd (handleStaticRequest env request w)) = data_cache w /\
  data_cache (snd (handleDefaultRequest env request w)) = data_cache w /\
  data_cache (snd (install_listener env w)) = data_cache w.
Proof.
  unfold static_cache, data_cache.
  destruct (handlers_keep_static env request data (storage_get CACHE_NAME (caches w)))
    as [H1 [H2 H3]].
  destruct (handlers_keep_data env request (storage_get DATA_CACHE_NAME (caches w)))
    as [H4 [H5 H6]].
  repeat split;
    [ exact (H1 w eq_refl) | exact (H2 w eq_refl) | exact (H3 w eq_refl)
    | exact (H4 w eq_refl) | exact (H5 w eq_refl) | exact (H6 w eq_refl) ].
Qed.

(** ** Headers *)









(** ** The api strategy, offline *)

Lemma storage_match_open (k name : string) (cs : CacheStorage) :
  storage_match k (storage_open name cs) = storage_match k cs.
Proof.
  unfold storage_open. destruct (assoc name cs); [reflexivity|].
  induction cs as [|[n c] cs IH]; simpl; [reflexivity|].
  destruct (cache_lookup k c); [reflexivity | exact IH].
Qed.





Lemma storage_match_own_cache (k name : string) (r : Response) (cs : CacheStorage) :
  (forall n c, In (n, c) cs -> n <> name -> cache_lookup k c = None) ->
  storage_match k (storage_update name (cache_store k r) (storage_open name cs)) = Some r.
Proof.
  intros Hother. unfold storage_open.
  destruct (assoc name cs) as [c0|] eqn:E.
  - induction cs as [|[n c] cs IH]; simpl in *; [discriminate|].
    destruct (String.eqb name n) eqn:En; simpl.
    + now rewrite lookup_store_same.
    + rewrite (Hother n c (or_introl eq_refl)).
      * apply IH; [|exact E]. intros n' c' Hin. apply Hother. now right.
      * intros ->. now rewrite String.eqb_refl in En.
  - clear E. induction cs as [|[n c] cs IH]; simpl.
    + rewrite String.eqb_refl. simpl. now rewrite lookup_store_same.
    + destruct (String.eqb name n) eqn:En; simpl.
      * now rewrite lookup_store_same.
      * rewrite (Hother n c (or_introl eq_refl)).
        -- apply IH. intros n' c' Hin. apply Hother. now right.
        -- intros ->. now rewrite String.eqb_refl in En.
Qed.

(** X8: what an api request fetched while online is what it gets back
    offline.  After a first request whose answer in 200..299 was stored, a
    second request for the same URL whose fetch fails is answered with
    that answer's status and body, marked offline, provided no cache other
    than the data cache holds the URL. *)
Theorem api_online_then_offline (env1 env2 : Env) (request : Request) (w : World)
        (r : Response) :
  net env1 (mkNetCall (method request) (url request) None) = NetResp r ->
  ok r = true ->
  faulty env1 (OpOpen DATA_CACHE_NAME) = false ->
  faulty env1 (OpPut DATA_CACHE_NAME (url request)) = false ->
  (forall n c, In (n, c) (caches w) -> n <> DATA_CACHE_NAME ->
               cache_lookup (url request) c = None) ->
  network_fails env2 request ->
  faulty env2 (OpCachesMatch (url request)) = false ->
  fst (handleAPIRequest env1 request w) = Returned r /\
  fst (handleAPIRequest env2 request (snd (handleAPIRequest env1 request w))) =
    Returned (addOfflineHeaders r) /\
  status (addOfflineHeaders r) = status r /\
  body (addOfflineHeaders r) = body r.
Proof.
  intros Hnet Hok Hopen Hput Hother Hfail Hmatch.
  rewrite (handleAPIRequest_online env1 request w r Hnet Hok Hopen Hput).
  cbn [fst snd]. split; [reflexivity|]. split; [|split; reflexivity].
  unfold network_fails in Hfail.
  unfold handleAPIRequest, try_catch, bind, fetch_request, fetch.
  assert (Hhit : forall w',
            caches w' = storage_update DATA_CACHE_NAME (cache_store (url request) r)
                          (storage_open DATA_CACHE_NAME (caches w)) ->
            storage_match (url request) (caches w') = Some r).
  { intros w' ->. now apply storage_match_own_cache. }
  destruct (net env2 (mkNetCall (method request) (url request) None)) as [|r2].
  - unfold console_log, caches_match, storage_op. rewrite Hmatch. cbn [fst snd].
    rewrite Hhit; reflexivity.
  - rewrite Hfail. unfold throw, console_log, caches_match, storage_op.
    rewrite Hmatch. cbn [fst snd]. rewrite Hhit; reflexivity.
Qed.

Lemma api_online_then_offline_witness :
  fst (handleAPIRequest (Sample.online Sample.price) Sample.ping empty_world) =
    Returned Sample.price /\
  fst (handleAPIRequest Sample.offline Sample.ping
         (snd (handleAPIRequest (Sample.online Sample.price) Sample.ping empty_world))) =
    Returned (addOfflineHeaders Sample.price) /\
  status (addOfflineHeaders Sample.price) = status Sample.price /\
  body (addOfflineHeaders Sample.price) = body Sample.price.
Proof.
  apply (api_online_then_offline (Sample.online Sample.price) Sample.offline
           Sample.ping empty_world Sample.price); try reflexivity;
    try exact I; intros n c [].
Defined.

(** ** The static strategy, failing *)

(** X9: the static handler never throws.  When reading the caches
    rejects, or nothing is cached and the fetch rejects, or the fetched
    answer in 200..299 cannot be stored, it answers 404 with the text
    "Asset not available offline" and leaves the entries of the caches as
    they were. *)
Theorem static_failure_is_404 (env : Env) (request : Request) (w : World) :
  (exists r, fst (handleStaticRequest env request w) = Returned r) /\
  (faulty env (OpCachesMatch (url request)) = true \/
   (storage_match (url request) (caches w) = None /\
    (net env (mkNetCall (method request) (url request) None) = NetFail \/
     exists r, net env (mkNetCall (method request) (url request) None) = NetResp r /\
               ok r = true /\
               (faulty env (OpOpen CACHE_NAME) = true \/
                faulty env (OpPut CACHE_NAME (url request)) = true))) ->
   fst (handleStaticRequest env request w) =
     Returned (not_found "Asset not available offline") /\
   status (not_found "Asset not available offline") = 404 /\
   forall k, storage_match k (caches (snd (handleStaticRequest env request w))) =
             storage_match k (caches w)).
Proof.
  split.
  - unfold handleStaticRequest, try_catch.
    match goal with |- context [match ?m w with _ => _ end] => destruct (m w) as [[r|e] w1] end.
    + now exists r.
    + eexists. reflexivity.
  - unfold handleStaticRequest, try_catch, bind, caches_match, fetch_request, fetch,
      caches_open, cache_put, storage_op, throw, console_log, ret.
    intros [Hfault | [Hmiss [Hnet | [r [Hnet [Hok Hstore]]]]]].
    + rewrite Hfault. repeat split.
    + destruct (faulty env (OpCachesMatch (url request))); [repeat split|].
      rewrite Hmiss, Hnet. repeat split.
    + destruct (faulty env (OpCachesMatch (url request))); [repeat split|].
      rewrite Hmiss, Hnet, Hok.
      destruct (faulty env (OpOpen CACHE_NAME)); [repeat split|].
      destruct Hstore as [Hf|Hput]; [discriminate|]. rewrite Hput.
      repeat split. intros k. simpl. apply storage_match_open.
Qed.

Lemma static_failure_is_404_witness :
  fst (handleStaticRequest Sample.offline Sample.logo empty_world) =
    Returned (not_found "Asset not available offline") /\
  status (not_found "Asset not available offline") = 404 /\
  forall k, storage_match k (caches (snd (handleStaticRequest Sample.offline Sample.logo
                                            empty_world))) =
            storage_match k (caches empty_world).
Proof.
  apply (proj2 (static_failure_is_404 Sample.offline Sample.logo empty_world)).
  right. split; [reflexivity | left; reflexivity].
Defined.

(** X10: an answer outside 200..299 to a static request that no cache
    holds is handed to the page as it is and is not stored, so the next
    request for it goes to the network again. *)
Theorem static_error_answer_not_cached (env : Env) (request : Request) (w : World)
        (r : Response) :
  storage_match (url request) (caches w) = None ->
  net env (mkNetCall (method request) (url request) None) = NetResp r ->
  ok r = false ->
  faulty env (OpCachesMatch (url request)) = false ->
  fst (handleStaticRequest env request w) = Returned r /\
  caches (snd (handleStaticRequest env request w)) = caches w /\
  network (snd (handleStaticRequest env request w)) =
    network w ++ [mkNetCall (method request) (url request) None].
Proof.
  intros Hmiss Hnet Hok Hmatch.
  unfold handleStaticRequest, try_catch, bind, caches_match, fetch_request, fetch,
    storage_op, ret.
  rewrite Hmatch, Hmiss, Hnet, Hok. repeat split.
Qed.

Lemma static_error_answer_not_cached_witness :
  fst (handleStaticRequest (Sample.online (not_found "gone")) Sample.logo empty_world) =
    Returned (not_found "gone") /\
  caches (snd (handleStaticRequest (Sample.online (not_found "gone")) Sample.logo
                 empty_world)) = caches empty_world /\
  network (snd (handleStaticRequest (Sample.online (not_found "gone")) Sample.logo
                  empty_world)) =
    network empty_world ++ [mkNetCall (method Sample.logo) (url Sample.logo) None].
Proof.
  exact (static_error_answer_not_cached (Sample.online (not_found "gone")) Sample.logo
           empty_world (not_found "gone") eq_refl eq_refl eq_refl eq_refl).
Defined.

(** ** The default strategy *)

(** X11: a request that accepts HTML and that some cache holds is
    answered from the cache without any network call; the world is left as
    it was. *)
Theorem default_html_is_cache_first (env : Env) (request : Request) (w : World)
        (cached : Response) :
  accepts_html request = true ->
  storage_match (url request) (caches w) = Some cached ->
  faulty env (OpCachesMatch (url request)) = false ->
  handleDefaultRequest env request w = (Returned (Some cached), w).
Proof.
  intros Hhtml Hhit Hmatch.
  unfold handleDefaultRequest, try_catch, bind.
  rewrite Hhtml. unfold caches_match, storage_op. rewrite Hmatch, Hhit. reflexivity.
Qed.



Lemma default_html_is_cache_first_witness :
  handleDefaultRequest Sample.offline Sample.page
    (Sample.world_with_static [(url Sample.page, Sample.shell)]) =
  (Returned (Some Sample.shell),
   Sample.world_with_static [(url Sample.page, Sample.shell)]).
Proof.
  exact (default_html_is_cache_first Sample.offline Sample.page
           (Sample.world_with_static [(url Sample.page, Sample.shell)]) Sample.shell
           eq_refl eq_refl eq_refl).
Defined.



(** ** The cache report *)

Lemma assoc_set_other {A : Type} (k k' : string) (v : A) (l : list (string * A)) :
  k <> k' -> assoc k (assoc_set k' v l) = assoc k l.
Proof.
  intros Hne. induction l as [|[k0 v0] l IH]; simpl.
  - destruct (String.eqb k k') eqn:E; [apply String.eqb_eq in E; contradiction | reflexivity].
  - destruct (String.eqb k' k0) eqn:E0; simpl.
    + apply String.eqb_eq in E0. subst k0.
      destruct (String.eqb k k') eqn:E; [apply String.eqb_eq in E; contradiction | reflexivity].
    + destruct (String.eqb k k0); [reflexivity | exact IH].
Qed.

Lemma cache_sizes_counts (env : Env) (w : World) (cacheNames : list string) :
  (forall n, faulty env (OpOpen n) = false /\ faulty env (OpKeys n) = false) ->
  (forall n, In n cacheNames -> In n (storage_keys (caches w))) ->
  forall info,
    exists info',
      cache_sizes env cacheNames info w = (Returned info', w) /\
      (forall n, In n cacheNames ->
         assoc n info' =
         Some (VNum (Z.of_nat (length (storage_get n (caches w)))))) /\
      (forall k, ~ In k cacheNames -> assoc k info' = assoc k info).
Proof.
  intros Hok.
  induction cacheNames as [|n rest IH]; intros Hin info.
  - exists info. repeat split. intros n [].
  - cbn [cache_sizes]. unfold bind, caches_open, cache_keys, storage_op.
    destruct (Hok n) as [Hopen Hkeys]. rewrite Hopen.
    destruct (assoc_of_key n (caches w) (Hin n (or_introl eq_refl))) as [c Hc].
    assert (Hsame : with_caches (storage_open n) w = w)
      by (apply with_caches_same; now apply (storage_open_present n (caches w) c)).
    rewrite Hsame, Hkeys.
    destruct (IH (fun n' H => Hin n' (or_intror H))
                 (assoc_set n (VNum (Z.of_nat (length (cache_requests
                                                         (storage_get n (caches w))))))
                            info))
      as [info' [Hrun [Hcount Hrest]]].
    exists info'. split; [exact Hrun|]. split.
    + intros n' Hn'. destruct (in_dec string_dec n' rest) as [Hr|Hr]; [now apply Hcount|].
      destruct Hn' as [<-|Hn']; [|contradiction].
      rewrite (Hrest n Hr), assoc_set_same. unfold cache_requests.
      now rewrite length_map.
    + intros k Hk. rewrite Hrest by (intros H; apply Hk; now right).
      apply assoc_set_other. intros ->. apply Hk. now left.
Qed.

(** X14: with the storage working, [getCacheInfo] changes nothing and
    reports, under the name of every cache, the number of entries the
    cache holds; [caches] is the number of caches, and [version] and
    [timestamp] are the static cache name and the clock, unless a cache
    bears one of these three names, whose count then takes the place. *)
Theorem getCacheInfo_counts (env : Env) (w : World) :
  faulty env OpCachesKeys = false ->
  (forall n, faulty env (OpOpen n) = false /\ faulty env (OpKeys n) = false) ->
  exists info,
    getCacheInfo env w = (Returned (VObj info), w) /\
    (forall n, In n (storage_keys (caches w)) ->
       assoc n info = Some (VNum (Z.of_nat (length (storage_get n (caches w)))))) /\
    (forall k, ~ In k (storage_keys (caches w)) ->
       assoc k info =
       assoc k [ ("caches", VNum (Z.of_nat (length (caches w))));
                 ("version", VStr CACHE_NAME);
                 ("timestamp", VNum (now env)) ]).
Proof.
  intros Hkeys Hok.
  unfold getCacheInfo, bind, caches_keys, storage_op. rewrite Hkeys.
  destruct (cache_sizes_counts env w (storage_keys (caches w)) Hok (fun n H => H)
              [ ("caches", VNum (Z.of_nat (length (storage_keys (caches w)))));
                ("version", VStr CACHE_NAME);
                ("timestamp", VNum (now env)) ])
    as [info [Hrun [Hcount Hrest]]].
  rewrite Hrun. exists info. split; [reflexivity|]. split; [exact Hcount|].
  intros k Hk. rewrite (Hrest k Hk). unfold storage_keys. now rewrite length_map.
Qed.

Lemma getCacheInfo_counts_witness :
  exists info,
    getCacheInfo Sample.offline Sample.three_caches =
      (Returned (VObj info), Sample.three_caches) /\
    assoc CACHE_NAME info = Some (VNum 1) /\
    assoc DATA_CACHE_NAME info = Some (VNum 0) /\
    assoc "caches" info = Some (VNum 3).
Proof.
  destruct (getCacheInfo_counts Sample.offline Sample.three_caches eq_refl
              (fun n => conj eq_refl eq_refl)) as [info [Hrun [Hcount Hrest]]].
  exists info. split; [exact Hrun|]. split; [|split].
  - apply (Hcount CACHE_NAME). simpl. tauto.
  - apply (Hcount DATA_CACHE_NAME). simpl. tauto.
  - apply (Hrest "caches"). simpl. intuition discriminate.
Defined.

(** X15: a GET_CACHE_INFO message is answered on the first port of the
    event with the report, and on that port only; with no port nothing is
    posted, the failure ending as a rejection that nobody handles while
    the listener itself completes. *)
Theorem cache_info_reply (env : Env) (event_data payload info : jsval)
        (ports : list string) (w : World) :
  prop "action" event_data = Some (VStr "GET_CACHE_INFO") ->
  prop "data" event_data = Some payload ->
  getCacheInfo env w = (Returned info, w) ->
  message_listener env event_data ports w =
  (Returned tt,
   match ports with
   | port :: _ => with_port_messages (fun l => l ++ [(port, info)]) w
   | [] => with_unhandled (fun l => l ++ [TypeError]) w
   end).
Proof.
  intros Haction Hdata Hinfo.
  rewrite (message_listener_dispatch env event_data ports w _ _ Haction Hdata).
  cbn [is_action String.eqb Ascii.eqb Bool.eqb andb].
  unfold floating, bind. rewrite Hinfo.
  destruct ports as [|port rest]; reflexivity.
Qed.

Lemma cache_info_reply_witness :
  exists info,
    message_listener Sample.offline (VObj [("action", VStr "GET_CACHE_INFO")])
      ["reply"; "other"] Sample.three_caches =
    (Returned tt,
     with_port_messages (fun l => l ++ [("reply", VObj info)]) Sample.three_caches) /\
    assoc CACHE_NAME info = Some (VNum 1).
Proof.
  exists [ ("caches", VNum 3); ("version", VStr CACHE_NAME);
           ("timestamp", VNum Sample.clock);
           ("meme-coin-analyzer-v0.9.0", VNum 1); (CACHE_NAME, VNum 1);
           (DATA_CACHE_NAME, VNum 0) ].
  split; [|reflexivity].
  exact (cache_info_reply Sample.offline (VObj [("action", VStr "GET_CACHE_INFO")])
           VUndefined _ ["reply"; "other"] Sample.three_caches
           eq_refl eq_refl eq_refl).
Defined.

(** ** The queue of outcomes *)

Lemma queueOutcomeSync_runs (env : Env) (data : jsval) (w : World) :
  faulty env (OpGetItem "pendingOutcomes") = false ->
  faulty env (OpSetItem "pendingOutcomes") = false ->
  queueOutcomeSync env data w =
  (Returned tt,
   with_console
     (fun l => l ++ [match prop "contractAddress" data with
                     | Some _ => (Log, "[SW] Outcome queued for sync:")
                     | None => (Error, "[SW] Failed to queue outcome:")
                     end])
     (with_sync_tags (fun l => l ++ ["token-outcome-sync"])
        (with_localStorage
           (assoc_set "pendingOutcomes"
              (map json_roundtrip
                 (match assoc "pendingOutcomes" (localStorage w) with
                  | Some l => l
                  | None => []
                  end ++ [data])))
           w))).
Proof.
  intros Hget Hset.
  unfold queueOutcomeSync, try_catch, bind, localStorage_getItem, localStorage_setItem,
    storage_op, floating, sync_register, defined.
  rewrite Hget, Hset.
  destruct (prop "contractAddress" data); reflexivity.
Qed.

(** X16: with the storage working, queueing an outcome appends the
    record (as its JSON text reads back) after the records already
    pending, in their order, registers the replay with the platform and
    sends nothing itself; it completes also for a record that is [null]. *)
Theorem queueOutcomeSync_appends (env : Env) (data : jsval) (w : World) :
  faulty env (OpGetItem "pendingOutcomes") = false ->
  faulty env (OpSetItem "pendingOutcomes") = false ->
  fst (queueOutcomeSync env data w) = Returned tt /\
  assoc "pendingOutcomes" (localStorage (snd (queueOutcomeSync env data w))) =
    Some (map json_roundtrip
            (match assoc "pendingOutcomes" (localStorage w) with
             | Some l => l
             | None => []
             end) ++ [json_roundtrip data]) /\
  sync_tags (snd (queueOutcomeSync env data w)) = sync_tags w ++ ["token-outcome-sync"] /\
  network (snd (queueOutcomeSync env data w)) = network w.
Proof.
  intros Hget Hset. rewrite (queueOutcomeSync_runs env data w Hget Hset).
  cbn [fst snd]. repeat split.
  simpl. rewrite assoc_set_same, map_app. reflexivity.
Qed.

Lemma queueOutcomeSync_appends_witness :
  fst (queueOutcomeSync Sample.offline (VObj [("contractAddress", VStr "0xdef")])
         (Sample.world_with_pending [Sample.outcome_report])) = Returned tt /\
  assoc "pendingOutcomes"
    (localStorage (snd (queueOutcomeSync Sample.offline
                          (VObj [("contractAddress", VStr "0xdef")])
                          (Sample.world_with_pending [Sample.outcome_report])))) =
    Some [Sample.outcome_report; VObj [("contractAddress", VStr "0xdef")]] /\
  sync_tags (snd (queueOutcomeSync Sample.offline
                    (VObj [("contractAddress", VStr "0xdef")])
                    (Sample.world_with_pending [Sample.outcome_report]))) =
    ["token-outcome-sync"] /\
  network (snd (queueOutcomeSync Sample.offline
                  (VObj [("contractAddress", VStr "0xdef")])
                  (Sample.world_with_pending [Sample.outcome_report]))) = [].
Proof.
  exact (queueOutcomeSync_appends Sample.offline (VObj [("contractAddress", VStr "0xdef")])
           (Sample.world_with_pending [Sample.outcome_report]) eq_refl eq_refl).
Defined.

(** X17: when persisting the pending list rejects, the outcome is
    dropped: nothing is stored, no replay is registered, the failure is
    logged and the call completes. *)
Theorem queueOutcomeSync_drops_on_storage_failure (env : Env) (data : jsval) (w : World) :
  faulty env (OpGetItem "pendingOutcomes") = true \/
  faulty env (OpSetItem "pendingOutcomes") = true ->
  queueOutcomeSync env data w =
  (Returned tt,
   with_console (fun l => l ++ [(Error, "[SW] Failed to queue outcome:")]) w).
Proof.
  intros Hfault.
  unfold queueOutcomeSync, try_catch, bind, localStorage_getItem, localStorage_setItem,
    storage_op, throw, console_error.
  destruct (faulty env (OpGetItem "pendingOutcomes")); [reflexivity|].
  destruct Hfault as [Hf|Hset]; [discriminate|]. rewrite Hset. reflexivity.
Qed.

Lemma queueOutcomeSync_drops_on_storage_failure_witness :
  queueOutcomeSync
    (mkEnv Sample.clock (fun _ => NetFail)
           (fun op => match op with OpSetItem _ => true | _ => false end))
    Sample.outcome_report empty_world =
  (Returned tt,
   with_console (fun l => l ++ [(Error, "[SW] Failed to queue outcome:")]) empty_world).
Proof.
  apply queueOutcomeSync_drops_on_storage_failure. right. reflexivity.
Defined.

(** ** The replay of the outcomes, in order *)

Lemma outcome_loop_posts (env : Env) (outcomes : list jsval) :
  forall w,
    exists w',
      for_of outcomes
        (fun outcome =>
           try_catch
             (bind (fetch env (post "/api/sync/outcomes" outcome)) (fun _ =>
              bind (defined (prop "contractAddress" outcome)) (fun _ =>
              console_log "[SW] Outcome synced:")))
             (fun _ => console_error "[SW] Failed to sync outcome:")) w =
      (Returned tt, w') /\
      localStorage w' = localStorage w /\
      network w' = network w ++ map (post "/api/sync/outcomes") outcomes.
Proof.
  induction outcomes as [|o os IH]; intros w.
  - exists w. repeat split. simpl. now rewrite app_nil_r.
  - cbn [for_of map]. set (loop := for_of os _) in *.
    unfold bind, try_catch, fetch, defined, console_log, console_error, throw, ret.
    destruct (net env (post "/api/sync/outcomes" o));
      [| destruct (prop "contractAddress" o)];
      match goal with |- context [loop ?w1] => destruct (IH w1) as [w' [Hrun [Hsame Hnet]]] end;
      exists w'; (split; [exact Hrun |]); (split; [rewrite Hsame; reflexivity|]);
      rewrite Hnet; simpl; now rewrite <- app_assoc.
Qed.

Lemma syncTokenOutcomes_posts (env : Env) (w : World) :
  faulty env (OpGetItem "pendingOutcomes") = false ->
  network (snd (syncTokenOutcomes env w)) =
  network w ++ map (post "/api/sync/outcomes")
                   (match assoc "pendingOutcomes" (localStorage w) with
                    | Some l => l
                    | None => []
                    end).
Proof.
  intros Hget.
  unfold syncTokenOutcomes. unfold try_catch at 1.
  unfold bind at 1. unfold console_log at 1.
  unfold bind at 1. unfold localStorage_getItem, storage_op. rewrite Hget.
  unfold bind at 1. cbv beta iota.
  match goal with
  | |- context [for_of ?l _ ?w0] =>
      destruct (outcome_loop_posts env l w0) as [w' [Hrun [Hsame Hnet]]]
  end.
  rewrite Hrun. unfold localStorage_setItem, storage_op.
  destruct (faulty env (OpSetItem "pendingOutcomes")); simpl; exact Hnet.
Qed.

(** X18: the replay of the outcomes sends one POST per pending record,
    in the order of the list and without skipping or repeating one,
    whatever the endpoint answers to each, and nothing else. *)
Theorem syncTokenOutcomes_posts_in_order (env : Env) (w : World) (pending : list jsval) :
  faulty env (OpGetItem "pendingOutcomes") = false ->
  assoc "pendingOutcomes" (localStorage w) = Some pending ->
  network (snd (syncTokenOutcomes env w)) =
  network w ++ map (post "/api/sync/outcomes") pending.
Proof.
  intros Hget Hpending. rewrite (syncTokenOutcomes_posts env w Hget). now rewrite Hpending.
Qed.

Lemma syncTokenOutcomes_posts_in_order_witness :
  network (snd (syncTokenOutcomes Sample.offline
                  (Sample.world_with_pending
                     [Sample.outcome_report; VNull; Sample.outcome_report]))) =
  network (Sample.world_with_pending [Sample.outcome_report; VNull; Sample.outcome_report]) ++
  map (post "/api/sync/outcomes") [Sample.outcome_report; VNull; Sample.outcome_report].
Proof.
  exact (syncTokenOutcomes_posts_in_order Sample.offline
           (Sample.world_with_pending [Sample.outcome_report; VNull; Sample.outcome_report])
           [Sample.outcome_report; VNull; Sample.outcome_report] eq_refl eq_refl).
Defined.

Lemma syncTokenOutcomes_stores_empty (env : Env) (w : World) :
  faulty env (OpGetItem "pendingOutcomes") = false ->
  faulty env (OpSetItem "pendingOutcomes") = false ->
  exists w',
    syncTokenOutcomes env w = (Returned tt, w') /\
    assoc "pendingOutcomes" (localStorage w') = Some [].
Proof.
  intros Hget Hset.
  unfold syncTokenOutcomes. unfold try_catch at 1.
  unfold bind at 1. unfold console_log at 1.
  unfold bind at 1. unfold localStorage_getItem, storage_op. rewrite Hget.
  unfold bind at 1. cbv beta iota.
  match goal with
  | |- context [for_of ?l _ ?w0] =>
      destruct (outcome_loop_posts env l w0) as [w' [Hrun [Hsame Hnet]]]
  end.
  rewrite Hrun. unfold localStorage_setItem, storage_op. rewrite Hset.
  eexists. split; [reflexivity|]. simpl. apply assoc_set_same.
Qed.

(** X19: enqueue, then replay.  With the storage working, an outcome
    that is queued and then replayed is sent after the records that were
    pending before it, each once, and the pending list is empty
    afterwards. *)
Theorem enqueue_then_replay (env1 env2 : Env) (data : jsval) (w : World) :
  faulty env1 (OpGetItem "pendingOutcomes") = false ->
  faulty env1 (OpSetItem "pendingOutcomes") = false ->
  faulty env2 (OpGetItem "pendingOutcomes") = false ->
  faulty env2 (OpSetItem "pendingOutcomes") = false ->
  network (snd (syncTokenOutcomes env2 (snd (queueOutcomeSync env1 data w)))) =
    network w ++
    map (post "/api/sync/outcomes")
        (map json_roundtrip
           (match assoc "pendingOutcomes" (localStorage w) with
            | Some l => l
            | None => []
            end) ++ [json_roundtrip data]) /\
  assoc "pendingOutcomes"
    (localStorage (snd (syncTokenOutcomes env2 (snd (queueOutcomeSync env1 data w))))) =
    Some [].
Proof.
  intros Hget1 Hset1 Hget2 Hset2. split.
  - rewrite (syncTokenOutcomes_posts env2 _ Hget2).
    rewrite (queueOutcomeSync_runs env1 data w Hget1 Hset1).
    cbn [snd]. simpl. rewrite assoc_set_same, map_app. reflexivity.
  - destruct (syncTokenOutcomes_stores_empty env2 (snd (queueOutcomeSync env1 data w))
                Hget2 Hset2) as [w' [Hrun Hempty]].
    now rewrite Hrun.
Qed.

Lemma enqueue_then_replay_witness :
  network (snd (syncTokenOutcomes (Sample.online Sample.price)
                  (snd (queueOutcomeSync Sample.offline
                          (VObj [("contractAddress", VStr "0xdef")])
                          (Sample.world_with_pending [Sample.outcome_report]))))) =
    [ post "/api/sync/outcomes" Sample.outcome_report;
      post "/api/sync/outcomes" (VObj [("contractAddress", VStr "0xdef")]) ] /\
  assoc "pendingOutcomes"
    (localStorage (snd (syncTokenOutcomes (Sample.online Sample.price)
                          (snd (queueOutcomeSync Sample.offline
                                  (VObj [("contractAddress", VStr "0xdef")])
                                  (Sample.world_with_pending [Sample.outcome_report])))))) =
    Some [].
Proof.
  exact (enqueue_then_replay Sample.offline (Sample.online Sample.price)
           (VObj [("contractAddress", VStr "0xdef")])
           (Sample.world_with_pending [Sample.outcome_report])
           eq_refl eq_refl eq_refl eq_refl).
Defined.

(** ** The replay of the analysis history *)

Lemma unsynced_positions_runs (items : list jsval) :
  (forall item, In item items -> prop "synced" item <> None) ->
  forall i w, unsynced_positions i items w = (Returned (unsynced_from i items), w).
Proof.
  induction items as [|item rest IH]; intros Hok i w; [reflexivity|].
  cbn [unsynced_positions unsynced_from]. unfold bind, defined, is_unsynced.
  destruct (prop "synced" item) as [synced|] eqn:E.
  - unfold ret at 1. rewrite IH by (intros x Hx; apply Hok; now right).
    unfold ret. now destruct (ToBoolean synced).
  - exfalso. apply (Hok item (or_introl eq_refl)). exact E.
Qed.

Lemma unsynced_positions_throws (items : list jsval) :
  (exists item, In item items /\ prop "synced" item = None) ->
  forall i w, unsynced_positions i items w = (Thrown TypeError, w).
Proof.
  induction items as [|item rest IH]; intros [bad [Hin Hbad]] i w; [destruct Hin|].
  cbn [unsynced_positions]. unfold bind, defined.
  destruct (prop "synced" item) as [synced|] eqn:E.
  - unfold ret at 1. destruct Hin as [->|Hin]; [congruence|].
    rewrite IH; [reflexivity | now exists bad].
  - reflexivity.
Qed.

Lemma nth_after {A : Type} (done rest : list A) (x d : A) :
  nth (length done) (done ++ x :: rest) d = x.
Proof. induction done as [|y done IH]; simpl; [reflexivity | exact IH]. Qed.

Lemma update_nth_after {A : Type} (f : A -> A) (done rest : list A) (x : A) :
  update_nth (length done) f (done ++ x :: rest) = done ++ f x :: rest.
Proof. induction done as [|y done IH]; simpl; [reflexivity | now rewrite IH]. Qed.

Lemma sync_unsynced_runs (env : Env) (todo : list jsval) :
  forall done w,
    exists w',
      sync_unsynced env (unsynced_from (length done) todo) (done ++ todo) w =
        (Returned (done ++ replayed env todo), w') /\
      network w' = network w ++ map (post "/api/sync/analysis") (filter is_unsynced todo) /\
      localStorage w' = localStorage w.
Proof.
  induction todo as [|item rest IH]; intros done w.
  - exists w. simpl. rewrite !app_nil_r. repeat split.
  - assert (Hnext : forall x, S (length done) = length (done ++ [x]))
      by (intros x; rewrite length_app; simpl; now rewrite Nat.add_1_r).
    assert (Hsplit : forall x, done ++ x :: rest = (done ++ [x]) ++ rest)
      by (intros x; now rewrite <- app_assoc).
    cbn [unsynced_from replayed map filter].
    fold (replayed env rest).
    destruct (is_unsynced item) eqn:Hun; cbn [andb].
    + cbn [sync_unsynced]. rewrite nth_after.
      unfold bind at 1. unfold try_catch, bind, fetch, analysis_post_resolves.
      destruct (net env (post "/api/sync/analysis" item)) as [|r].
      * unfold console_error, ret.
        rewrite (Hnext item), (Hsplit item).
        match goal with
        | |- context [sync_unsynced env _ _ ?w1] => destruct (IH (done ++ [item]) w1)
            as [w' [Hrun [Hnet Hsame]]]
        end.
        exists w'. rewrite Hrun.
        split; [now rewrite <- app_assoc|].
        split; [rewrite Hnet; simpl; now rewrite <- app_assoc | rewrite Hsame; reflexivity].
      * unfold ret. rewrite update_nth_after.
        rewrite (Hnext (mark_synced item)), (Hsplit (mark_synced item)).
        match goal with
        | |- context [sync_unsynced env _ _ ?w1] =>
            destruct (IH (done ++ [mark_synced item]) w1) as [w' [Hrun [Hnet Hsame]]]
        end.
        exists w'. rewrite Hrun.
        split; [now rewrite <- app_assoc|].
        split; [rewrite Hnet; simpl; now rewrite <- app_assoc | rewrite Hsame; reflexivity].
    + rewrite (Hnext item), (Hsplit item).
      destruct (IH (done ++ [item]) w) as [w' [Hrun [Hnet Hsame]]].
      exists w'. rewrite Hrun.
      split; [now rewrite <- app_assoc|].
      split; [exact Hnet | exact Hsame].
Qed.

Lemma syncAnalysisData_runs (env : Env) (w : World) (history : list jsval) :
  faulty env (OpGetItem "memeAnalysisHistory") = false ->
  faulty env (OpSetItem "memeAnalysisHistory") = false ->
  assoc "memeAnalysisHistory" (localStorage w) = Some history ->
  (forall item, In item history -> prop "synced" item <> None) ->
  exists w',
    syncAnalysisData env w = (Returned tt, w') /\
    assoc "memeAnalysisHistory" (localStorage w') =
      Some (map json_roundtrip (replayed env history)) /\
    network w' =
      network w ++ map (post "/api/sync/analysis") (filter is_unsynced history).
Proof.
  intros Hget Hset Hstored Hok.
  unfold syncAnalysisData. unfold try_catch at 1.
  unfold bind at 1. unfold console_log at 1.
  unfold bind at 1. unfold localStorage_getItem, storage_op. rewrite Hget.
  cbn [localStorage with_console]. rewrite Hstored.
  unfold bind at 1. rewrite (unsynced_positions_runs history Hok).
  unfold bind at 1.
  match goal with
  | |- context [sync_unsynced env _ _ ?w1] =>
      destruct (sync_unsynced_runs env history [] w1) as [w' [Hrun [Hnet Hsame]]]
  end.
  cbn [length app] in Hrun. rewrite Hrun.
  unfold localStorage_setItem, storage_op. rewrite Hset.
  eexists. split; [reflexivity|]. split.
  - simpl. apply assoc_set_same.
  - simpl. exact Hnet.
Qed.

(** X20: with the storage working and no record of the history [null],
    the replay of the analysis history sends one POST for each record that
    is not yet synced, in the order of the history, and none for a record
    that is; it stores the history with the same records in the same
    order, those whose POST was answered marked [synced], the others (the
    rejected ones included) unchanged. *)
Theorem syncAnalysisData_marks_answered (env : Env) (w : World) (history : list jsval) :
  faulty env (OpGetItem "memeAnalysisHistory") = false ->
  faulty env (OpSetItem "memeAnalysisHistory") = false ->
  assoc "memeAnalysisHistory" (localStorage w) = Some history ->
  (forall item, In item history -> prop "synced" item <> None) ->
  fst (syncAnalysisData env w) = Returned tt /\
  assoc "memeAnalysisHistory" (localStorage (snd (syncAnalysisData env w))) =
    Some (map json_roundtrip (replayed env history)) /\
  network (snd (syncAnalysisData env w)) =
    network w ++ map (post "/api/sync/analysis") (filter is_unsynced history).
Proof.
  intros Hget Hset Hstored Hok.
  destruct (syncAnalysisData_runs env w history Hget Hset Hstored Hok)
    as [w' [Hrun [Hstore Hnet]]].
  rewrite Hrun. cbn [fst snd]. repeat split; assumption.
Qed.

Lemma syncAnalysisData_marks_answered_witness :
  fst (syncAnalysisData Sample.flaky_endpoint
         (Sample.world_with_history Sample.three_analyses)) = Returned tt /\
  assoc "memeAnalysisHistory"
    (localStorage (snd (syncAnalysisData Sample.flaky_endpoint
                          (Sample.world_with_history Sample.three_analyses)))) =
    Some [ VObj [("contractAddress", VStr "0xa"); ("synced", VBool true)];
           VObj [("contractAddress", VStr "0xb"); ("synced", VBool false)];
           VObj [("contractAddress", VStr "0xc"); ("synced", VBool true)] ] /\
  network (snd (syncAnalysisData Sample.flaky_endpoint
                  (Sample.world_with_history Sample.three_analyses))) =
    [ post "/api/sync/analysis"
        (VObj [("contractAddress", VStr "0xb"); ("synced", VBool false)]);
      post "/api/sync/analysis"
        (VObj [("contractAddress", VStr "0xc"); ("synced", VBool false)]) ].
Proof.
  apply (syncAnalysisData_marks_answered Sample.flaky_endpoint
           (Sample.world_with_history Sample.three_analyses) Sample.three_analyses);
    try reflexivity.
  intros item [<-|[<-|[<-|[]]]]; discriminate.
Defined.

(** X21: a single [null] record in the history stops the whole replay
    before anything is sent: no POST is made, the stored history is left as
    it was, and the failure is logged. *)
Theorem syncAnalysisData_stops_on_null_record (env : Env) (w : World)
        (history : list jsval) :
  faulty env (OpGetItem "memeAnalysisHistory") = false ->
  assoc "memeAnalysisHistory" (localStorage w) = Some history ->
  (exists item, In item history /\ (item = VNull \/ item = VUndefined)) ->
  syncAnalysisData env w =
  (Returned tt,
   with_console
     (fun l => (l ++ [(Log, "[SW] Syncing analysis data...")]) ++
               [(Error, "[SW] Analysis sync failed:")]) w).
Proof.
  intros Hget Hstored [item [Hin Hnull]].
  unfold syncAnalysisData. unfold try_catch at 1.
  unfold bind at 1. unfold console_log at 1.
  unfold bind at 1. unfold localStorage_getItem, storage_op. rewrite Hget.
  cbn [localStorage with_console]. rewrite Hstored.
  unfold bind at 1. rewrite unsynced_positions_throws; [reflexivity|].
  exists item. split; [exact Hin|]. destruct Hnull as [-> | ->]; reflexivity.
Qed.

Lemma syncAnalysisData_stops_on_null_record_witness :
  syncAnalysisData (Sample.online Sample.price)
    (Sample.world_with_history [Sample.outcome_report; VNull]) =
  (Returned tt,
   with_console
     (fun l => (l ++ [(Log, "[SW] Syncing analysis data...")]) ++
               [(Error, "[SW] Analysis sync failed:")])
     (Sample.world_with_history [Sample.outcome_report; VNull])).
Proof.
  apply (syncAnalysisData_stops_on_null_record (Sample.online Sample.price)
           (Sample.world_with_history [Sample.outcome_report; VNull])
           [Sample.outcome_report; VNull]); try reflexivity.
  exists VNull. split; [simpl; tauto | now left].
Defined.

(** ** The direct write of an analysis *)

Lemma storage_get_update_present (name : string) (f : Cache -> Cache) (cs : CacheStorage) :
  storage_get name (storage_update name f (storage_open name cs)) = f (storage_get name cs).
Proof. now rewrite storage_get_update, assoc_storage_open. Qed.



(** ** Install, succeeding *)

Lemma store_all_other (entries : list (string * Response)) :
  forall c u,
    ~ In u (map fst entries) ->
    cache_lookup u (store_all entries c) = cache_lookup u c.
Proof.
  unfold store_all.
  induction entries as [|[k r] entries IH]; intros c u Hout; simpl; [reflexivity|].
  rewrite IH by (intros H; apply Hout; now right).
  apply lookup_store_other. intros ->. apply Hout. now left.
Qed.

Lemma store_all_lookup (entries : list (string * Response)) :
  forall c u r,
    NoDup (map fst entries) ->
    In (u, r) entries ->
    cache_lookup u (store_all entries c) = Some r.
Proof.
  induction entries as [|[k r0] entries IH]; intros c u r Hnd Hin; [destruct Hin|].
  simpl in Hnd. inversion Hnd as [|? ? Hout Hnd']. subst.
  destruct Hin as [Heq|Hin].
  - injection Heq as -> ->.
    change (store_all ((u, r) :: entries) c)
      with (store_all entries (cache_store u r c)).
    rewrite store_all_other by exact Hout. apply lookup_store_same.
  - change (store_all ((k, r0) :: entries) c)
      with (store_all entries (cache_store k r0 c)).
    now apply IH.
Qed.

Lemma fetch_all_answers (env : Env) (urls : list string) :
  (forall u, In u urls -> exists r, net env (get u) = NetResp r /\ ok r = true) ->
  exists entries,
    fetch_all env urls = Some entries /\
    map fst entries = urls /\
    forall u r, In (u, r) entries -> net env (get u) = NetResp r.
Proof.
  induction urls as [|u0 urls IH]; intros Hall.
  - exists []. repeat split. intros u r [].
  - destruct (Hall u0 (or_introl eq_refl)) as [r0 [Hnet Hok]].
    destruct (IH (fun u H => Hall u (or_intror H))) as [entries [Hf [Hkeys Hent]]].
    exists ((u0, r0) :: entries). simpl. rewrite Hnet, Hok, Hf. simpl.
    split; [reflexivity|]. split; [now rewrite Hkeys|].
    intros u r [Heq|Hin]; [injection Heq as <- <-; exact Hnet | now apply Hent].
Qed.

Lemma manifest_distinct : NoDup STATIC_CACHE_URLS.
Proof. repeat constructor; simpl; intuition discriminate. Qed.

(** X23: when every asset of the manifest is answered in 200..299 and
    the cache store works, the install succeeds, asks for immediate
    activation once, and the static cache then holds, under each URL of
    the manifest, the response the network gave for it. *)
Theorem install_populates_manifest (env : Env) (w : World) :
  faulty env (OpOpen CACHE_NAME) = false ->
  faulty env (OpAddAll CACHE_NAME) = false ->
  (forall u, In u STATIC_CACHE_URLS ->
             exists r, net env (get u) = NetResp r /\ ok r = true) ->
  fst (install env w) = Installed /\
  skipWaiting_calls (snd (install env w)) = S (skipWaiting_calls w) /\
  forall u r,
    In u STATIC_CACHE_URLS ->
    net env (get u) = NetResp r ->
    cache_lookup u (static_cache (snd (install env w))) = Some r.
Proof.
  intros Hopen Hadd Hall.
  destruct (fetch_all_answers env STATIC_CACHE_URLS Hall) as [entries [Hf [Hkeys Hent]]].
  assert (Hrun : exists w',
             install env w = (Installed, w') /\
             skipWaiting_calls w' = S (skipWaiting_calls w) /\
             static_cache w' = store_all entries (static_cache w)).
  { unfold install, install_listener, try_catch, bind, console_log, caches_open,
      cache_addAll, storage_op, skipWaiting.
    rewrite Hopen, Hadd, Hf. eexists. split; [reflexivity|]. split; [reflexivity|].
    unfold static_cache. cbn [caches with_caches with_console with_network with_skipWaiting].
    apply storage_get_update_present. }
  destruct Hrun as [w' [Hrun [Hskip Hstatic]]].
  rewrite Hrun. cbn [fst snd]. split; [reflexivity|]. split; [exact Hskip|].
  intros u r Hin Hnet. rewrite Hstatic.
  apply store_all_lookup; [rewrite Hkeys; exact manifest_distinct|].
  rewrite <- Hkeys in Hin. apply in_map_iff in Hin.
  destruct Hin as [[u' r'] [Hu Hin]]. simpl in Hu. subst u'.
  pose proof (Hent u r' Hin) as Hnet'. rewrite Hnet in Hnet'.
  injection Hnet' as ->. exact Hin.
Qed.

Lemma install_populates_manifest_witness :
  fst (install (Sample.online Sample.icon) empty_world) = Installed /\
  skipWaiting_calls (snd (install (Sample.online Sample.icon) empty_world)) = 1%nat /\
  cache_lookup "/index.html"
    (static_cache (snd (install (Sample.online Sample.icon) empty_world))) =
    Some Sample.icon.
Proof.
  destruct (install_populates_manifest (Sample.online Sample.icon) empty_world
              eq_refl eq_refl
              (fun u _ => ex_intro _ Sample.icon (conj eq_refl eq_refl)))
    as [Hinstalled [Hskip Hheld]].
  split; [exact Hinstalled | split; [exact Hskip|]].
  apply Hheld; [simpl; tauto | reflexivity].
Defined.

(** ** Notifications *)

Lemma or_else_truthy (a b : jsval) :
  ToBoolean b = true -> ToBoolean (Notify.or_else a b) = true.
Proof. intros Hb. unfold Notify.or_else. destruct (ToBoolean a) eqn:E; assumption. Qed.



Lemma first_client_at_spec (clientList : list string) (urlToOpen : jsval) :
  forall i,
    match Notify.first_client_at i clientList urlToOpen with
    | Some j =>
        (i <= j)%nat /\
        (exists u, nth_error clientList (j - i) = Some u /\ Notify.is_at u urlToOpen = true) /\
        (forall m u, (m < j - i)%nat -> nth_error clientList m = Some u ->
                     Notify.is_at u urlToOpen = false)
    | None => forall u, In u clientList -> Notify.is_at u urlToOpen = false
    end.
Proof.
  induction clientList as [|c rest IH]; intros i; simpl.
  - intros u [].
  - destruct (Notify.is_at c urlToOpen) eqn:E.
    + split; [lia|]. rewrite Nat.sub_diag. split.
      * exists c. now split.
      * intros m u Hm. lia.
    + specialize (IH (S i)).
      destruct (Notify.first_client_at (S i) rest urlToOpen) as [j|].
      * destruct IH as [Hle [[u [Hu Hat]] Hbefore]].
        split; [lia|].
        replace (j - i)%nat with (S (j - S i)) by lia. split.
        -- exists u. now split.
        -- intros m u' Hm Hnth. destruct m as [|m]; simpl in Hnth.
           ++ injection Hnth as <-. exact E.
           ++ apply (Hbefore m u'); [lia | exact Hnth].
      * intros u [<-|Hin]; [exact E | now apply IH].
Qed.

(** X25: a click always closes the notification first.  On the
    [dismiss] action nothing else happens; otherwise the listener focuses
    the first window client whose URL is exactly the target and opens no
    window, or, when no client is at the target, opens one window on it:
    it never does both. *)
Theorem notification_click_focuses_or_opens (action : string) (notificationData : jsval)
        (clientList : list string) :
  (action = "dismiss" ->
   Notify.notificationclick_listener action notificationData clientList =
   [Notify.CloseNotification]) /\
  (action <> "dismiss" ->
   (exists j u,
       Notify.notificationclick_listener action notificationData clientList =
         [Notify.CloseNotification; Notify.FocusClient j] /\
       nth_error clientList j = Some u /\
       Notify.is_at u (Notify.url_to_open notificationData) = true /\
       forall m u', (m < j)%nat -> nth_error clientList m = Some u' ->
                    Notify.is_at u' (Notify.url_to_open notificationData) = false) \/
   (Notify.notificationclick_listener action notificationData clientList =
      [Notify.CloseNotification; Notify.OpenWindow (Notify.url_to_open notificationData)] /\
    forall u, In u clientList ->
              Notify.is_at u (Notify.url_to_open notificationData) = false)).
Proof.
  split.
  - intros ->. reflexivity.
  - intros Hne. unfold Notify.notificationclick_listener.
    destruct (String.eqb action "dismiss") eqn:E;
      [apply String.eqb_eq in E; contradiction|].
    pose proof (first_client_at_spec clientList (Notify.url_to_open notificationData) 0)
      as Hspec.
    destruct (Notify.first_client_at 0 clientList (Notify.url_to_open notificationData))
      as [j|].
    + left. destruct Hspec as [_ [[u [Hu Hat]] Hbefore]].
      rewrite Nat.sub_0_r in Hu, Hbefore.
      exists j, u. repeat split; assumption.
    + right. split; [reflexivity | exact Hspec].
Qed.

Lemma notification_click_focuses_or_opens_witness :
  Notify.notificationclick_listener "dismiss" (VObj [("url", VStr "/alerts")])
    ["/"; "/alerts"] = [Notify.CloseNotification] /\
  Notify.notificationclick_listener "view" (VObj [("url", VStr "/alerts")])
    ["/"; "/alerts"; "/alerts"] = [Notify.CloseNotification; Notify.FocusClient 1] /\
  Notify.notificationclick_listener "" VNull ["/alerts"] =
    [Notify.CloseNotification; Notify.OpenWindow (VStr "/")].
Proof.
  split; [|split].
  - exact (proj1 (notification_click_focuses_or_opens "dismiss"
                    (VObj [("url", VStr "/alerts")]) ["/"; "/alerts"]) eq_refl).
  - reflexivity.
  - reflexivity.
Defined.

(** X26: a click on a notification that the push listener showed goes
    to the URL the push payload named, and to [/] when the payload named
    none (or named a falsy one). *)
Theorem push_then_click_targets_payload_url (env : Env) (payload : jsval)
        (n : Notify.Notification) :
  Notify.push_listener env (Some payload) = Returned (Some n) ->
  Notify.url_to_open (Notify.notification_data n) =
  Notify.or_else (match prop "url" payload with
                  | Some u => u
                  | None => VUndefined
                  end) (VStr "/").
Proof.
  unfold Notify.push_listener.
  destruct (prop "body" payload); [|discriminate].
  destruct (prop "tag" payload); [|discriminate].
  destruct (prop "requireInteraction" payload); [|discriminate].
  destruct (prop "url" payload) as [u|]; [|discriminate].
  destruct (prop "title" payload); [|discriminate].
  intros H. injection H as <-.
  unfold Notify.url_to_open, Notify.notification_data. cbn [prop assoc String.eqb].
  cbn. unfold Notify.or_else at 1.
  destruct (ToBoolean (Notify.or_else u (VStr "/"))) eqn:E; [reflexivity|].
  rewrite or_else_truthy in E; [discriminate | reflexivity].
Qed.

Lemma push_then_click_targets_payload_url_witness :
  Notify.url_to_open
    (Notify.notification_data
       (Notify.mkNotification
          (VStr "Rug alert") (VStr "New update available")
          "/assets/icons/icon-192x192.png" "/assets/icons/badge-72x72.png"
          (VStr "default") (VBool false)
          [ Notify.mkAction "view" "View Details" "/assets/icons/action-view.png";
            Notify.mkAction "dismiss" "Dismiss" "/assets/icons/action-dismiss.png" ]
          (VStr "/alerts") Sample.clock)) =
  VStr "/alerts".
Proof.
  exact (push_then_click_targets_payload_url Sample.offline
           (VObj [("title", VStr "Rug alert"); ("url", VStr "/alerts")]) _ eq_refl).
Defined.

(** ** Refreshing an api entry *)


